(** * ukpr: press-release scraper and server-sent-event server

    A shallow embedding of the Go sources of ukpr:
    - the HTML helpers [getAttr], [getTextContent] and [contains];
    - the [PressRelease] record and the [Scraper] interface of main.go;
    - [scrape], [doit], the periodic scraper loop and the list and test
      modes of [main], as functions in a small state/panic/trace monad;
    - the event store, whose Go source is not part of the files at hand
      and which is modelled from the written specification. *)

From Stdlib Require Import ZArith Lia.
From stdpp Require Import base option list strings gmap sorting.

Set Default Proof Using "Type".
Set Warnings "-register-all".
Local Open Scope string_scope.
Local Open Scope list_scope.
Local Open Scope stdpp_scope.

(** ** HTML nodes (package html) *)

Module Html.

Inductive NodeType :=
| ErrorNode | TextNode | DocumentNode | ElementNode | CommentNode | DoctypeNode.

Record Attribute := mkAttribute {
  Namespace : string;
  Key : string;
  Val : string
}.

(** An [html.Node]: the node's own fields and its children, first child
    first.  Parent and sibling links of the Go struct are the tree
    structure itself. *)
Inductive Node := mkNode {
  Type_ : NodeType;
  Data : string;
  Attr : list Attribute;
  Children : list Node
}.

(** [getAttr]: range over [n.Attr], return [a.Val] at the first [a] with
    [a.Key == attr]; the empty string after the loop. *)
Fixpoint getAttr_loop (attrs : list Attribute) (attr : string) : string :=
  match attrs with
  | [] => ""
  | a :: rest => if String.eqb (Key a) attr then Val a else getAttr_loop rest attr
  end.

Definition getAttr (n : Node) (attr : string) : string :=
  getAttr_loop (Attr n) attr.

Definition is_TextNode (ty : NodeType) : bool :=
  match ty with
  | TextNode => true
  | _ => false
  end.

(** [getTextContent] recursively fetches the text for a node: the [Data]
    of a text node; for any other node, [txt] starts empty and the text
    of each child, first child first, is appended to it. *)
Fixpoint getTextContent (n : Node) : string :=
  match n with
  | mkNode ty data _ kids =>
      if is_TextNode ty then data
      else
        (fix loop (txt : string) (child : list Node) {struct child} : string :=
           match child with
           | [] => txt
           | c :: next => loop (String.append txt (getTextContent c)) next
           end) "" kids
  end.

(** The [Data] of the text nodes of a tree, in document order.  Nothing
    below a text node counts. *)
Fixpoint text_nodes (n : Node) : list string :=
  match n with
  | mkNode ty data _ kids =>
      if is_TextNode ty then [data] else flat_map text_nodes kids
  end.

(** The strings of a list, appended in order. *)
Definition join (l : list string) : string := foldr String.append "" l.

(** Rewriting the attributes of every node of a tree. *)
Fixpoint map_attrs (f : list Attribute -> list Attribute) (n : Node) : Node :=
  match n with
  | mkNode ty data attrs kids => mkNode ty data (f attrs) (List.map (map_attrs f) kids)
  end.

(** Node pointers, for [contains], which follows [Parent] links and
    compares pointers: a non-nil [*html.Node] is an address, [None] is
    nil, and [parents !! a] is the [Parent] field of the node at [a],
    absent when that field is nil. *)
Abbreviation Links := (gmap nat nat) (only parsing).

(** The loop [for ; n != nil; n = n.Parent] of [contains].  Go puts no
    bound on it; [fuel] bounds the iterations observed, and [None] is a
    run that is still going when they are used up. *)
Fixpoint contains_loop (parents : Links) (fuel : nat) (container : option nat)
    (n : option nat) : option bool :=
  match fuel with
  | O => None
  | S fuel' =>
      match n with
      | None => Some false
      | Some a =>
          if decide (Some a = container) then Some true
          else contains_loop parents fuel' container (parents !! a)
      end
  end.

(** [contains] returns true if [n] is a descendant of [container]: the
    walk starts at [n.Parent]. *)
Definition contains (parents : Links) (fuel : nat) (container : option nat) (n : nat)
  : option bool :=
  contains_loop parents fuel container (parents !! n).

(** The node [k] [Parent] links above the node at [a]. *)
Fixpoint ancestor (parents : Links) (k : nat) (a : nat) : option nat :=
  match k with
  | O => Some a
  | S k' =>
      match parents !! a with
      | Some p => ancestor parents k' p
      | None => None
      end
  end.

End Html.

(** ** Go values of package main *)

(** A non-nil Go [error], by its message. *)
Definition error := string.

(** [time.Time], as an instant on an integer time line. *)
Definition Time := Z.

Record PressRelease := mkPressRelease {
  Title : string;
  Source : string;
  Permalink : string;
  PubDate : Time;
  Content : string;
  (* if this is a fully-filled out press release, complete is set *)
  complete : bool
}.

Definition with_complete (b : bool) (pr : PressRelease) : PressRelease :=
  {| Title := Title pr; Source := Source pr; Permalink := Permalink pr;
     PubDate := PubDate pr; Content := Content pr; complete := b |}.

(** [*PressRelease]: an address in the memory of press releases.  An
    address the memory does not hold behaves as the nil pointer. *)
Abbreviation ptr := nat (only parsing).
Abbreviation Mem := (gmap nat PressRelease) (only parsing).

(** ** The collaborators of the scheduler *)

(** package net/http and io/ioutil, over the state of the outside world. *)
Class Net := {
  World : Type;
  Response : Type;
  http_Get : string -> World -> (Response + error) * World;
  ioutil_ReadAll : Response -> World -> (string + error) * World;
  Body_Close : Response -> World -> World
}.

(** The two methods of [*Store] that [doit] calls, and the event type
    [Stash] hands back.  Their Go bodies are in a file that is not at
    hand, so [doit] is embedded over any implementation of them. *)
Class StoreOps `{Net} := {
  Store : Type;
  Event : Type;
  WhichAreNew : Store -> Mem -> list ptr -> list ptr;
  Stash : World -> PressRelease -> Store -> Event * Store
}.

(** The [Scraper] interface.  [FetchList] talks to the network and
    allocates the press releases it returns; [Scrape] fills in the press
    release it is handed, and may fail after a partial update. *)
Record Scraper `{Net} := mkScraper {
  Name : string;
  FetchList : World -> Mem -> (list ptr + error) * World * Mem;
  Scrape : PressRelease -> string -> PressRelease * option error
}.

(** The two scrapers at hand.  They delegate to [GenericFetchList] and
    [GenericScrape], which live in a file that is not at hand and are
    taken as given. *)
Section Scrapers.
Context `{Net}.
Variable GenericFetchList :
  string -> string -> string -> World -> Mem -> (list ptr + error) * World * Mem.
Variable GenericScrape :
  string -> PressRelease -> string -> string -> string -> string -> string
  -> PressRelease * option error.

(** scraper to grab 72point press releases *)
Definition SeventyTwoPointScraper : Scraper := {|
  Name := "72point";
  FetchList :=
    let url := "http://www.72point.com/coverage/" in
    let sel := ".items .item .content .links a" in
    GenericFetchList "72point" url sel;
  Scrape := fun pr raw_html =>
    let title := "#content h3.title" in
    let content := "#content .item .content" in
    let cruft := ".addthis_toolbox" in
    let pubDate := "#content .item .meta" in
    GenericScrape "72point" pr raw_html title content cruft pubDate
|}.

(** scraper to grab Waitrose press releases *)
Definition WaitroseScraper : Scraper := {|
  Name := "waitrose";
  FetchList :=
    let url := "http://www.waitrose.presscentre.com/content/default.aspx?NewsAreaID=2" in
    let sel := "#content .main .item h3 a" in
    GenericFetchList "waitrose" url sel;
  Scrape := fun pr raw_html =>
    let title := "#content h1" in
    let content := "#content .main .bodyCopy" in
    let cruft := "" in
    let pubDate := "#content .date_release" in
    GenericScrape "waitrose" pr raw_html title content cruft pubDate
|}.

End Scrapers.

(** The lines [doit] writes to the log. *)
Inductive LogLine :=
| LogReleases (name : string) (oldCount newCount : nat)
| LogError (err : error) (permalink : string)
| LogStashed (name permalink : string).

Section Scheduler.
Context `{StoreOps}.

(** What the scheduler does to its collaborators, in the order it does it. *)
Inductive Action :=
| CallDoit (name : string)
| ReturnDoit (name : string)
| CallFetchList (name : string)
| CallWhichAreNew (incoming result : list ptr)
| CallHttpGet (url : string)
| CallScrape (name : string) (pr : ptr)
| CallStash (pr : ptr) (v : PressRelease) (ev : Event)
| CallPublish (channels : list string) (ev : Event)
| Log (l : LogLine)
| Sleep (seconds : Z).


Record Sigma := mkSigma {
  mem : Mem;
  store : Store;
  world : World
}.

Inductive Outcome (A : Type) :=
| Returned (a : A)
| Panicked (e : error).
#[global] Arguments Returned {A} a.
#[global] Arguments Panicked {A} e.

(** A computation: from a state to an outcome, the state it leaves and the
    actions it performed, oldest first. *)
Definition M (A : Type) : Type := Sigma -> Outcome A * Sigma * list Action.

Definition ret {A} (a : A) : M A := fun s => (Returned a, s, []).

Definition bind {A B} (m : M A) (f : A -> M B) : M B :=
  fun s =>
    match m s with
    | (Returned a, s1, t1) =>
        match f a s1 with
        | (r, s2, t2) => (r, s2, t1 ++ t2)
        end
    | (Panicked e, s1, t1) => (Panicked e, s1, t1)
    end.

Definition panic {A} (e : error) : M A := fun s => (Panicked e, s, []).

Definition emit (a : Action) : M unit := fun s => (Returned tt, s, [a]).

End Scheduler.

#[global] Instance M_ret `{StoreOps} : MRet M := @ret _ _.
#[global] Instance M_bind `{StoreOps} : MBind M := fun A B f m => bind m f.

(** ** main.go: [scrape], [doit] and the scraper loop *)

Section Doit.
Context `{StoreOps}.

(** [*pr]: reading through a nil pointer panics. *)
Definition deref (pr : ptr) : M PressRelease :=
  fun s =>
    match mem s !! pr with
    | Some v => (Returned v, s, [])
    | None => (Panicked "invalid memory address or nil pointer dereference", s, [])
    end.

(** [resp, err := http.Get(url)] *)
Definition call_http_Get (url : string) : M (Response + error) :=
  fun s =>
    let '(r, w) := http_Get url (world s) in
    (Returned r, mkSigma (mem s) (store s) w, [CallHttpGet url]).

(** [html, err := ioutil.ReadAll(resp.Body)] *)
Definition call_ReadAll (resp : Response) : M (string + error) :=
  fun s =>
    let '(r, w) := ioutil_ReadAll resp (world s) in
    (Returned r, mkSigma (mem s) (store s) w, []).

(** [resp.Body.Close()] *)
Definition call_Close (resp : Response) : M unit :=
  fun s => (Returned tt, mkSigma (mem s) (store s) (Body_Close resp (world s)), []).

(** [err = scraper.Scrape(pr, html)]: the scraper writes through [pr]. *)
Definition call_Scrape (scraper : Scraper) (pr : ptr) (html : string) : M (option error) :=
  fun s =>
    match mem s !! pr with
    | Some v =>
        let '(v', err) := Scrape scraper v html in
        (Returned err, mkSigma (<[pr := v']> (mem s)) (store s) (world s),
         [CallScrape (Name scraper) pr])
    | None => (Panicked "invalid memory address or nil pointer dereference", s, [])
    end.

(** helper to fetch and scrape an individual press release.  The deferred
    [Close] runs when the function returns, on each path after the
    response was obtained. *)
Definition scrape (scraper : Scraper) (pr : ptr) : M (option error) :=
  v ← deref pr;
  r ← call_http_Get (Permalink v);
  match r with
  | inr err => mret (Some err)
  | inl resp =>
      h ← call_ReadAll resp;
      res ← match h with
            | inr err => mret (Some err)
            | inl html => call_Scrape scraper pr html
            end;
      call_Close resp;;
      mret res
  end.

(** [pressReleases, err := scraper.FetchList()] *)
Definition call_FetchList (scraper : Scraper) : M (list ptr + error) :=
  fun s =>
    let '(r, w, m) := FetchList scraper (world s) (mem s) in
    (Returned r, mkSigma m (store s) w, [CallFetchList (Name scraper)]).

(** [pressReleases = store.WhichAreNew(pressReleases)] *)
Definition call_WhichAreNew (prs : list ptr) : M (list ptr) :=
  fun s =>
    let new := WhichAreNew (store s) (mem s) prs in
    (Returned new, s, [CallWhichAreNew prs new]).

(** [pr.complete = true] *)
Definition set_complete (pr : ptr) : M unit :=
  fun s =>
    match mem s !! pr with
    | Some v => (Returned tt, mkSigma (<[pr := with_complete true v]> (mem s)) (store s) (world s), [])
    | None => (Panicked "invalid memory address or nil pointer dereference", s, [])
    end.

(** [ev := store.Stash(pr)] *)
Definition call_Stash (pr : ptr) : M Event :=
  fun s =>
    match mem s !! pr with
    | Some v =>
        let '(ev, st) := Stash (world s) v (store s) in
        (Returned ev, mkSigma (mem s) st (world s), [CallStash pr v ev])
    | None => (Panicked "invalid memory address or nil pointer dereference", s, [])
    end.

(** [sseSrv.Publish(channels, ev)] *)
Definition call_Publish (channels : list string) (ev : Event) : M unit :=
  emit (CallPublish channels ev).

Definition log_Printf (l : LogLine) : M unit := emit (Log l).

(** The part of the loop body before the stash: [true] when the press
    release is to be stashed, [false] when the body ended in [continue]. *)
Definition doit_complete (scraper : Scraper) (pr : ptr) : M bool :=
  v ← deref pr;
  if negb (complete v) then
    err ← scrape scraper pr;
    match err with
    | Some e =>
        v' ← deref pr;
        log_Printf (LogError e (Permalink v'));;
        mret false
    | None =>
        set_complete pr;;
        mret true
    end
  else mret true.

(** The body of [for _, pr := range pressReleases]. *)
Definition doit_body (scraper : Scraper) (pr : ptr) : M unit :=
  go_on ← doit_complete scraper pr;
  if go_on : bool then
    (* stash the new press release *)
    ev ← call_Stash pr;
    v ← deref pr;
    log_Printf (LogStashed (Name scraper) (Permalink v));;
    (* broadcast it to any connected clients *)
    call_Publish [Source v] ev
  else mret tt.

Fixpoint range {A} (l : list A) (body : A -> M unit) : M unit :=
  match l with
  | [] => mret tt
  | x :: rest => body x;; range rest body
  end.

(** run a scraper *)
Definition doit (scraper : Scraper) : M unit :=
  r ← call_FetchList scraper;
  match r with
  | inr err => panic err
  | inl pressReleases =>
      (* cull out the ones we've already got *)
      let oldCount := length pressReleases in
      pressReleases ← call_WhichAreNew pressReleases;
      log_Printf (LogReleases (Name scraper) oldCount (length pressReleases));;
      (* for all the new ones: *)
      range pressReleases (doit_body scraper)
  end.

(** The goroutine of [main] that runs the scrapers: an endless loop, of
    which [rounds] gives the passes observed, each with the order in
    which that pass ranges over the map of scrapers.  A panic that leaves
    [doit] is not recovered anywhere: it ends the goroutine and, with it,
    the process. *)
Fixpoint scraper_loop (interval : Z) (rounds : list (list Scraper)) : M unit :=
  match rounds with
  | [] => mret tt
  | scrapers :: later =>
      range scrapers (fun scraper =>
        emit (CallDoit (Name scraper));;
        doit scraper;;
        emit (ReturnDoit (Name scraper)));;
      emit (Sleep interval);;
      scraper_loop interval later
  end.

End Doit.

(** ** The event store *)

(** Modelled from the spec: the PersistedEvent of the data model (the Go
    event type lives in the store's source file, which is not at hand): a
    sequence identifier, the topic, the item as payload and a storage
    timestamp. *)
Record PersistedEvent := mkPersistedEvent {
  ev_id : Z;
  ev_topic : string;
  ev_payload : PressRelease;
  ev_stored : Time
}.

(** Modelled from the spec: the persisted state of the Event Store (the Go
    [Store] and its database schema are not at hand): the durable log of
    accepted events, in the order they were accepted. *)
Definition Storage := list PersistedEvent.

(** Modelled from the spec: a store handle (Go [*Store], not at hand).  It
    owns nothing but the durable log: every operation consults and
    updates durable state. *)
Record EventStore := mkEventStore { db : Storage }.

(** Modelled from the spec: opening the store over an underlying storage
    ([NewStore], whose body is not at hand). *)
Definition NewStore (disk : Storage) : EventStore := mkEventStore disk.

(** Modelled from the spec: a process restart over the same underlying
    storage; the handle is lost and the storage is opened again. *)
Definition restart (s : EventStore) : EventStore := NewStore (db s).

(** Modelled from the spec: the dedup key of an item is its (topic,
    permalink) pair (the key comparison of the store is not at hand). *)
Definition same_key (topic permalink : string) (e : PersistedEvent) : bool :=
  String.eqb (ev_topic e) topic && String.eqb (Permalink (ev_payload e)) permalink.

(** Modelled from the spec: the point existence check by (topic,
    permalink) on the persisted state (the store's lookup is not at
    hand). *)
Definition persisted (s : EventStore) (item : PressRelease) : bool :=
  existsb (same_key (Source item) (Permalink item)) (db s).

(** Modelled from the spec: filterNew, the subset of the candidates whose
    (topic, permalink) pair has never been persisted, in input order and
    without writes ([Store.WhichAreNew], whose body is not at hand). *)
Definition filterNew (s : EventStore) (candidates : list PressRelease) : list PressRelease :=
  List.filter (fun c => negb (persisted s c)) candidates.

(** Modelled from the spec: one global identifier space shared by all
    topics; the identifier allocated next is one more than the greatest
    stored one, and 1 on an empty store (the allocation of the Go store
    is not at hand). *)
Definition last_id (rows : Storage) : Z :=
  foldr Z.max 0%Z (ev_id <$> rows).

(** Modelled from the spec: the next sequence identifier of a store (the
    allocation of the Go store is not at hand). *)
Definition next_id (s : EventStore) : Z := (last_id (db s) + 1)%Z.

(** Modelled from the spec: append allocates the next sequence identifier
    and stores the item with it ([Store.Stash], whose body is not at
    hand). *)
Definition append (now : Time) (item : PressRelease) (s : EventStore)
  : PersistedEvent * EventStore :=
  let ev := mkPersistedEvent (next_id s) (Source item) item now in
  (ev, mkEventStore (db s ++ [ev])).

(** Modelled from the spec: an append whose write fails applies nothing
    and consumes no identifier ([io_ok] is whether the storage accepts
    the write). *)
Definition try_append (io_ok : bool) (now : Time) (item : PressRelease) (s : EventStore)
  : option PersistedEvent * EventStore :=
  if io_ok then let '(ev, s') := append now item s in (Some ev, s')
  else (None, s).

(** Modelled from the spec: an event is after a cursor when its
    identifier is strictly greater, and after the cursor "none" in any
    case (the comparison of [Store.Replay] is not at hand). *)
Definition after_cursor (cursor : option Z) (e : PersistedEvent) : bool :=
  match cursor with
  | Some c => (c <? ev_id e)%Z
  | None => true
  end.

(** Modelled from the spec: replaySince, the persisted events of a topic
    that are after the cursor, in stored order ([Store.Replay], whose
    body is not at hand). *)
Definition replaySince (s : EventStore) (topic : string) (cursor : option Z)
  : list PersistedEvent :=
  List.filter (fun e => String.eqb (ev_topic e) topic && after_cursor cursor e) (db s).

(** Events in strictly ascending order of their identifiers. *)
Definition ascending (evs : list PersistedEvent) : Prop :=
  StronglySorted (fun a b => (ev_id a < ev_id b)%Z) evs.

(** The life of a store: appends that succeed or fail, and restarts. *)
Inductive StoreOp :=
| OpAppend (io_ok : bool) (now : Time) (item : PressRelease)
| OpRestart.

Definition store_step (op : StoreOp) (s : EventStore) : option PersistedEvent * EventStore :=
  match op with
  | OpAppend io_ok now item => try_append io_ok now item s
  | OpRestart => (None, restart s)
  end.

(** Running a history of operations: the events handed out by the appends
    that succeeded, oldest first, and the store at the end. *)
Fixpoint store_run (ops : list StoreOp) (s : EventStore) : list PersistedEvent * EventStore :=
  match ops with
  | [] => ([], s)
  | op :: later =>
      let '(r, s1) := store_step op s in
      let '(evs, s2) := store_run later s1 in
      (match r with Some ev => ev :: evs | None => evs end, s2)
  end.

(** Persisting a sequence of items, each append succeeding. *)
Fixpoint persist_all (now : Time) (items : list PressRelease) (s : EventStore) : EventStore :=
  match items with
  | [] => s
  | item :: later => persist_all now later (snd (append now item s))
  end.

(** The store as [doit] sees it: the candidates arrive by pointer, and
    the storage timestamp is read off the world's clock. *)
Definition EventStoreOps `{Net} (clock : World -> Time) : StoreOps := {|
  Store := EventStore;
  Event := PersistedEvent;
  WhichAreNew := fun s m prs =>
    List.filter (fun pr => match m !! pr with
                           | Some v => negb (persisted s v)
                           | None => false
                           end) prs;
  Stash := fun w v s => append (clock w) v s
|}.

(** ** Properties of traces *)

Section Traces.
Context `{StoreOps}.

(** The actions of the loop body of [doit], item after item: an item is
    either skipped after a failed completion, or stashed, logged and
    published, in that order, after a completion when it was incomplete. *)
Inductive items_trace (name : string) (new : list ptr) : list Action -> Prop :=
| items_done :
    items_trace name new []
| items_skipped pr url extract e link t :
    pr ∈ new ->
    extract = [] \/ extract = [CallScrape name pr] ->
    items_trace name new t ->
    items_trace name new (CallHttpGet url :: extract ++ Log (LogError e link) :: t)
| items_stashed pr completion v ev t :
    pr ∈ new ->
    complete v = true ->
    completion = [] \/ (exists url, completion = [CallHttpGet url; CallScrape name pr]) ->
    items_trace name new t ->
    items_trace name new
      (completion ++ CallStash pr v ev :: Log (LogStashed name (Permalink v))
                  :: CallPublish [Source v] ev :: t).

(** The actions of one cycle: the listing, then, unless it failed, the
    dedup of its result, then the new items. *)
Inductive cycle_trace (name : string) : list Action -> Prop :=
| cycle_listing_failed :
    cycle_trace name [CallFetchList name]
| cycle_listed incoming new t :
    items_trace name new t ->
    cycle_trace name
      (CallFetchList name :: CallWhichAreNew incoming new
         :: Log (LogReleases name (length incoming) (length new)) :: t).

(** What a cycle may do: no call of [doit] within [doit], and stashes of
    complete press releases only. *)
Definition cycle_action (a : Action) : Prop :=
  match a with
  | CallDoit _ | ReturnDoit _ | Sleep _ => False
  | CallStash _ v _ => complete v = true
  | _ => True
  end.

Definition stashes_complete (a : Action) : Prop :=
  match a with
  | CallStash _ v _ => complete v = true
  | _ => True
  end.

Definition is_stash_or_publish (a : Action) : bool :=
  match a with
  | CallStash _ _ _ | CallPublish _ _ => true
  | _ => false
  end.

(** The page fetch of [scrape] in terms of the network alone: [http.Get],
    then the read of the body, then the deferred [Close] of that body. *)
Definition fetch_page (url : string) (w : World) : (string + error) * World :=
  match http_Get url w with
  | (inr e, w1) => (inr e, w1)
  | (inl resp, w1) =>
      match ioutil_ReadAll resp w1 with
      | (h, w2) => (h, Body_Close resp w2)
      end
  end.

(** What the loop of [doit] does with one press release, told from the
    memory at its turn and from the answers of the network and of the
    scraper: the outcome, the state left and the actions.
    - A nil pointer panics.
    - A complete press release is stashed as it is, without completion.
    - An incomplete one is fetched; when the fetch fails, or the
      extraction from the fetched page fails, the error is logged and
      nothing else happens; when both succeed the release is marked
      complete, then stashed, then published. *)
Inductive item_step (scraper : Scraper) (pr : ptr) (s : Sigma)
  : Outcome unit -> Sigma -> list Action -> Prop :=
| step_nil :
    mem s !! pr = None ->
    item_step scraper pr s
      (Panicked "invalid memory address or nil pointer dereference") s []
| step_stash v :
    mem s !! pr = Some v ->
    complete v = true ->
    item_step scraper pr s (Returned tt)
      (mkSigma (mem s) (Stash (world s) v (store s)).2 (world s))
      [CallStash pr v (Stash (world s) v (store s)).1;
       Log (LogStashed (Name scraper) (Permalink v));
       CallPublish [Source v] (Stash (world s) v (store s)).1]
| step_fetch_failed v e w :
    mem s !! pr = Some v ->
    complete v = false ->
    fetch_page (Permalink v) (world s) = (inr e, w) ->
    item_step scraper pr s (Returned tt)
      (mkSigma (mem s) (store s) w)
      [CallHttpGet (Permalink v); Log (LogError e (Permalink v))]
| step_extract_failed v html w v' e :
    mem s !! pr = Some v ->
    complete v = false ->
    fetch_page (Permalink v) (world s) = (inl html, w) ->
    Scrape scraper v html = (v', Some e) ->
    item_step scraper pr s (Returned tt)
      (mkSigma (<[pr := v']> (mem s)) (store s) w)
      [CallHttpGet (Permalink v); CallScrape (Name scraper) pr;
       Log (LogError e (Permalink v'))]
| step_completed v html w v' :
    mem s !! pr = Some v ->
    complete v = false ->
    fetch_page (Permalink v) (world s) = (inl html, w) ->
    Scrape scraper v html = (v', None) ->
    item_step scraper pr s (Returned tt)
      (mkSigma (<[pr := with_complete true v']> (mem s))
               (Stash w (with_complete true v') (store s)).2 w)
      [CallHttpGet (Permalink v); CallScrape (Name scraper) pr;
       CallStash pr (with_complete true v')
         (Stash w (with_complete true v') (store s)).1;
       Log (LogStashed (Name scraper) (Permalink v'));
       CallPublish [Source v'] (Stash w (with_complete true v') (store s)).1].

(** The actions of the loop of [doit] over the new press releases: one
    step for each, in their order, each from the state the one before
    left; a panic ends them. *)
Inductive items_steps (scraper : Scraper) : list ptr -> Sigma -> list Action -> Prop :=
| steps_done s :
    items_steps scraper [] s []
| steps_panic pr rest s e s1 t1 :
    item_step scraper pr s (Panicked e) s1 t1 ->
    items_steps scraper (pr :: rest) s t1
| steps_next pr rest s s1 t1 t :
    item_step scraper pr s (Returned tt) s1 t1 ->
    items_steps scraper rest s1 t ->
    items_steps scraper (pr :: rest) s (t1 ++ t).

(** Classes of actions, for counting. *)
Definition is_stash (a : Action) : bool :=
  match a with CallStash _ _ _ => true | _ => false end.

Definition is_publish (a : Action) : bool :=
  match a with CallPublish _ _ => true | _ => false end.

Definition is_error_log (a : Action) : bool :=
  match a with Log (LogError _ _) => true | _ => false end.

(** The actions that go to the network or run an extraction. *)
Definition is_completion (a : Action) : bool :=
  match a with CallHttpGet _ | CallScrape _ _ => true | _ => false end.

(** The actions that go to the store or to the stream server. *)
Definition is_store_or_hub (a : Action) : bool :=
  match a with
  | CallWhichAreNew _ _ | CallStash _ _ _ | CallPublish _ _ => true
  | _ => false
  end.

End Traces.

(** ** main.go: the scrapers of [main], its list mode and its test mode *)

(** The command line flags. *)
Record Flags := mkFlags {
  port : Z;
  interval : Z;
  testScraper : string;
  briefFlag : bool;
  listFlag : bool
}.

(** What [main] writes before it becomes a server: lines on standard
    output and, in test mode, lines in the log. *)
Inductive Output :=
| PrintName (name : string)
| LogScrape (name permalink : string)
| LogScrapeError (err : error) (permalink : string)
| PrintFull (title : string) (pubDate : Time) (permalink content : string)
| PrintBrief (title permalink : string).

(** How [main] leaves its first part: it returned after listing, it
    exited through [log.Fatal], it returned after testing one scraper, or
    it went on to set up the server. *)
Inductive MainExit :=
| Listed
| Fatal (msg : string)
| Tested
| Serves.




Section Main.
Context `{StoreOps}.

(** [scrapers[name] = scraper] for each element of the array [foo], in
    order. *)
Definition build_scrapers (foo : list Scraper) : gmap string Scraper :=
  foldl (fun scrapers scraper => <[Name scraper := scraper]> scrapers) ∅ foo.

(** A computation that also writes output; what was written before a
    panic stays written. *)
Definition T (A : Type) : Type :=
  Sigma -> Outcome A * Sigma * list Action * list Output.

Definition T_ret {A} (a : A) : T A := fun s => (Returned a, s, [], []).

Definition T_bind {A B} (m : T A) (f : A -> T B) : T B :=
  fun s =>
    match m s with
    | (Returned a, s1, t1, o1) =>
        match f a s1 with
        | (r, s2, t2, o2) => (r, s2, t1 ++ t2, o1 ++ o2)
        end
    | (Panicked e, s1, t1, o1) => (Panicked e, s1, t1, o1)
    end.

Definition lift {A} (m : M A) : T A :=
  fun s => match m s with (r, s1, t1) => (r, s1, t1, []) end.

Definition write (o : Output) : T unit := fun s => (Returned tt, s, [], [o]).

End Main.

#[global] Instance T_mret `{StoreOps} : MRet T := @T_ret _ _.
#[global] Instance T_mbind `{StoreOps} : MBind T := fun A B f m => T_bind m f.

Section MainModes.
Context `{StoreOps}.

(** The part of the test loop body before the prints: [true] when the
    press release is to be printed, [false] when the body ended in
    [continue]. *)
Definition test_complete (scraper : Scraper) (pr : ptr) : T bool :=
  v ← lift (deref pr);
  if negb (complete v) then
    write (LogScrape (Name scraper) (Permalink v));;
    err ← lift (scrape scraper pr);
    match err with
    | Some e =>
        v' ← lift (deref pr);
        write (LogScrapeError e (Permalink v'));;
        mret false
    | None =>
        lift (set_complete pr);;
        mret true
    end
  else mret true.

(** The body of the loop of the test mode. *)
Definition test_body (scraper : Scraper) (brief : bool) (pr : ptr) : T unit :=
  go_on ← test_complete scraper pr;
  if go_on : bool then
    v ← lift (deref pr);
    if negb brief then
      write (PrintFull (Title v) (PubDate v) (Permalink v) (Content v))
    else
      write (PrintBrief (Title v) (Permalink v))
  else mret tt.

Fixpoint T_range {A} (l : list A) (body : A -> T unit) : T unit :=
  match l with
  | [] => mret tt
  | x :: rest => body x;; T_range rest body
  end.

(** run a single scraper, without server or store *)
Definition test_scraper (scraper : Scraper) (brief : bool) : T unit :=
  r ← lift (call_FetchList scraper);
  match r with
  | inr err => lift (panic err)
  | inl pressReleases => T_range pressReleases (test_body scraper brief)
  end.

(** [main] up to the point where it sets up the server.  Go fixes no
    order for the range over the map of scrapers in the list mode; here
    it is the order of [map_to_list]. *)
Definition main_modes (flags : Flags) (foo : list Scraper) : T MainExit :=
  let scrapers := build_scrapers foo in
  if listFlag flags then
    T_range (map_to_list scrapers).*1 (fun name => write (PrintName name));;
    mret Listed
  else if negb (String.eqb (testScraper flags) "") then
    match scrapers !! testScraper flags with
    | None => mret (Fatal "Unknown scraper")
    | Some scraper =>
        test_scraper scraper (briefFlag flags);;
        mret Tested
    end
  else mret Serves.

(** A computation that stays away from the store and from the stream
    server. *)
Definition storeless {A} (m : T A) : Prop :=
  forall s,
    store (m s).1.1.2 = store s
    /\ forallb (fun a => negb (is_store_or_hub a)) (m s).1.2 = true.

End MainModes.

(** ** A small world to run the definitions in *)

Module Demo.

Record DemoWorld := mkDemoWorld {
  pages : gmap string string;
  now : Time
}.

#[export] Instance demo_net : Net := {|
  World := DemoWorld;
  Response := string;
  http_Get := fun url w =>
    (match pages w !! url with
     | Some body => inl body
     | None => inr "404 Not Found"
     end, w);
  ioutil_ReadAll := fun resp w => (inl resp, w);
  Body_Close := fun _ w => w
|}.

#[export] Instance demo_store : StoreOps := EventStoreOps now.

Definition listed (link : string) : PressRelease :=
  mkPressRelease "" "tesco" link 0%Z "" false.

(** Lists two incomplete press releases; extraction fails on an empty page. *)
Definition tesco : Scraper := {|
  Name := "tesco";
  FetchList := fun w m =>
    (inl [0; 1]%nat, w,
     <[0%nat := listed "http://a/1"]> (<[1%nat := listed "http://a/2"]> m));
  Scrape := fun v html =>
    if String.eqb html "" then (v, Some "no content")
    else (mkPressRelease "title" (Source v) (Permalink v) 5%Z html (complete v), None)
|}.

(** A feed whose listing carries everything: two complete press
    releases. *)
Definition feed : Scraper := {|
  Name := "feed";
  FetchList := fun w m =>
    (inl [0; 1]%nat, w,
     <[0%nat := mkPressRelease "one" "feed" "http://f/1" 1%Z "first" true]>
       (<[1%nat := mkPressRelease "two" "feed" "http://f/2" 2%Z "second" true]> m));
  Scrape := fun v _ => (v, Some "not to be called")
|}.

(** A source whose listing page cannot be fetched. *)
Definition down : Scraper := {|
  Name := "72point";
  FetchList := fun w m => (inr "listing fetch failed", w, m);
  Scrape := fun v _ => (v, None)
|}.

Definition web : DemoWorld :=
  mkDemoWorld (<["http://a/2" := "<p>two</p>"]> ∅) 100%Z.

Definition boot : Sigma := mkSigma ∅ (NewStore []) web.

(** The state a cycle of [tesco] is in after its listing. *)
Definition listed_state : Sigma :=
  mkSigma (<[0%nat := listed "http://a/1"]> (<[1%nat := listed "http://a/2"]> ∅))
          (NewStore []) web.

(** Two appends on an empty store, as a connection may find it. *)
(** A document of three nested nodes: 0 is the root, 1 its child, 2 the
    child of 1. *)
Definition chain : gmap nat nat := <[2%nat := 1%nat]> (<[1%nat := 0%nat]> ∅).

(** The start of a process whose store already holds the first press
    release of [tesco]. *)
Definition seen_one : Sigma :=
  mkSigma ∅ (persist_all 100%Z [listed "http://a/1"] (NewStore [])) web.

(** The start of a process that cannot reach any page. *)
Definition offline : Sigma := mkSigma ∅ (NewStore []) (mkDemoWorld ∅ 100%Z).

(** Command lines: [-l -t tesco] and [-t asda -b]. *)
Definition list_flags : Flags := mkFlags 9998 600 "tesco" false true.
Definition asda_flags : Flags := mkFlags 9998 600 "asda" true false.

End Demo.

(** * Proofs *)

(** ** The trace of a cycle *)

Ltac unfold_steps :=
  unfold deref, set_complete, call_Stash, call_Publish, log_Printf, emit,
    call_WhichAreNew, call_FetchList, panic,
    mbind, M_bind, bind, mret, M_ret, ret; simpl.

Ltac norm_trace :=
  simpl; rewrite ?app_nil_r; repeat rewrite <- List.app_assoc; simpl.

Section DoitFacts.
Context `{StoreOps}.

Lemma bind_returned {A B} (m : M A) (f : A -> M B) s a s1 t1 :
  m s = (Returned a, s1, t1) ->
  (m ≫= f) s = (let '(r, s2, t2) := f a s1 in (r, s2, t1 ++ t2)).
Proof.
  intros Hm. unfold mbind, M_bind, bind. rewrite Hm.
  destruct (f a s1) as [[r s2] t2]. reflexivity.
Qed.

Lemma bind_panicked {A B} (m : M A) (f : A -> M B) s e s1 t1 :
  m s = (Panicked e, s1, t1) ->
  (m ≫= f) s = (Panicked e, s1, t1).
Proof.
  intros Hm. unfold mbind, M_bind, bind. rewrite Hm. reflexivity.
Qed.

(** [scrape] on a live pointer returns (it does not panic), leaves the
    store alone, keeps the pointer live, and calls the extraction at most
    once, after the fetch; when it reports no error the extraction ran. *)
Lemma scrape_returns scraper pr s v :
  mem s !! pr = Some v ->
  exists err s1 extract,
    scrape scraper pr s
      = (Returned err, s1, CallHttpGet (Permalink v) :: extract)
    /\ store s1 = store s
    /\ is_Some (mem s1 !! pr)
    /\ (extract = [] \/ extract = [CallScrape (Name scraper) pr])
    /\ (err = None -> extract = [CallScrape (Name scraper) pr]).
Proof.
  intros Hv. unfold scrape, deref, call_http_Get, call_ReadAll, call_Scrape,
    call_Close, mbind, M_bind, bind, mret, M_ret, ret. simpl. rewrite Hv.
  destruct (http_Get (Permalink v) (world s)) as [[resp|e] w1]; simpl.
  - destruct (ioutil_ReadAll resp w1) as [[html|e] w2]; simpl.
    + rewrite Hv. destruct (Scrape scraper v html) as [v' err]; simpl.
      eexists _, _, _. split; [reflexivity|]. simpl.
      rewrite lookup_insert_eq. eauto 6.
    + eexists _, _, _. split; [reflexivity|]. simpl.
      rewrite Hv. split_and!; eauto. discriminate.
  - eexists _, _, _. split; [reflexivity|]. simpl.
    rewrite Hv. split_and!; eauto. discriminate.
Qed.


(** One pass through the loop body extends an item trace by one item. *)
Lemma doit_body_trace scraper pr s new :
  pr ∈ new ->
  exists r s1 tb,
    doit_body scraper pr s = (r, s1, tb)
    /\ forall t, items_trace (Name scraper) new t ->
                 items_trace (Name scraper) new (tb ++ t).
Proof.
  intros Hin. unfold doit_body, doit_complete. unfold_steps.
  destruct (mem s !! pr) as [v|] eqn:Hv; simpl.
  2:{ eexists _, _, _. split; [reflexivity|]. intros t Ht. exact Ht. }
  destruct (complete v) eqn:Hc; simpl.
  - rewrite Hv. destruct (Stash (world s) v (store s)) as [ev st] eqn:Hst; simpl.
    rewrite Hv. eexists _, _, _. split; [reflexivity|]. intros t Ht. norm_trace.
    apply (items_stashed _ _ pr [] v ev t); auto.
  - destruct (scrape_returns scraper pr s v Hv)
      as (err & s1 & extract & Hs & Hstore & [v1 Hv1] & Hex & Hok).
    rewrite Hs. destruct err as [e|]; simpl.
    + rewrite Hv1. eexists _, _, _. split; [reflexivity|]. intros t Ht.
      norm_trace. apply (items_skipped _ _ pr); auto.
    + rewrite Hv1. simpl. rewrite lookup_insert_eq.
      destruct (Stash (world s1) (with_complete true v1) (store s1)) as [ev st]; simpl.
      rewrite lookup_insert_eq. eexists _, _, _. split; [reflexivity|].
      intros t Ht. rewrite (Hok eq_refl). norm_trace.
      apply (items_stashed _ _ pr [CallHttpGet (Permalink v); CallScrape (Name scraper) pr]
               (with_complete true v1) ev t); eauto.
Qed.

Lemma range_trace scraper new l s :
  l ⊆ new ->
  items_trace (Name scraper) new (range l (doit_body scraper) s).2.
Proof.
  revert s. induction l as [|pr l IH]; intros s Hsub; simpl.
  - constructor.
  - destruct (doit_body_trace scraper pr s new) as (r & s1 & tb & Hb & Ht).
    { apply Hsub. left. }
    destruct r as [[]|e].
    + rewrite (bind_returned _ _ _ _ _ _ Hb).
      specialize (IH s1). destruct (range l (doit_body scraper) s1) as [[r2 s2] t2].
      simpl in *. apply Ht, IH. intros x Hx. apply Hsub. right. exact Hx.
    + rewrite (bind_panicked _ _ _ _ _ _ Hb). simpl.
      rewrite <- (app_nil_r tb). apply Ht. constructor.
Qed.

(** The trace of [doit] is the trace of a cycle. *)
Lemma doit_trace scraper s :
  cycle_trace (Name scraper) (doit scraper s).2.
Proof.
  unfold doit. unfold_steps.
  destruct (FetchList scraper (world s) (mem s)) as [[[prs|err] w] m]; simpl.
  - match goal with
    | |- context [range ?l ?b ?s0] =>
        pose proof (range_trace scraper l l s0 (reflexivity _)) as Hr;
        destruct (range l b s0) as [[r2 s2] t2]
    end.
    simpl in *. constructor. exact Hr.
  - constructor.
Qed.


Lemma items_trace_actions name new t :
  items_trace name new t -> Forall cycle_action t.
Proof.
  induction 1 as [|pr url extract e link t Hin Hex Ht IH
                  |pr completion v ev t Hin Hc Hco Ht IH].
  - constructor.
  - destruct Hex as [-> | ->]; simpl; repeat (constructor; simpl; auto).
  - destruct Hco as [-> | [url ->]]; simpl; repeat (constructor; simpl; auto).
Qed.

Lemma cycle_trace_actions name t :
  cycle_trace name t -> Forall cycle_action t.
Proof.
  destruct 1 as [|incoming new t Ht].
  - repeat (constructor; simpl; auto).
  - repeat (constructor; simpl; auto). eapply items_trace_actions, Ht.
Qed.

Lemma doit_actions scraper s : Forall cycle_action (doit scraper s).2.
Proof. eapply cycle_trace_actions, doit_trace. Qed.

(** In an item trace a publish comes right after the stash that produced
    its event and the log line of that stash. *)
Lemma items_trace_publish name new t :
  items_trace name new t ->
  forall pre ch ev post,
    t = pre ++ CallPublish ch ev :: post ->
    exists pre' pr v,
      pre = pre' ++ [CallStash pr v ev; Log (LogStashed name (Permalink v))]
      /\ ch = [Source v] /\ pr ∈ new /\ complete v = true.
Proof.
  induction 1 as [|pr url extract e link t Hin Hex Ht IH
                  |pr completion v ev t Hin Hc Hco Ht IH];
    intros pre ch ev' post Heq.
  - destruct pre; discriminate.
  - destruct Hex as [-> | ->]; simpl in Heq.
    + do 2 (destruct pre as [|? pre]; simplify_eq/=).
      destruct (IH _ _ _ _ eq_refl) as (pre' & pr' & v' & -> & Hrest).
      exists (CallHttpGet url :: Log (LogError e link) :: pre'), pr', v'. auto.
    + do 3 (destruct pre as [|? pre]; simplify_eq/=).
      destruct (IH _ _ _ _ eq_refl) as (pre' & pr' & v' & -> & Hrest).
      exists (CallHttpGet url :: CallScrape name pr :: Log (LogError e link) :: pre'),
        pr', v'. auto.
  - destruct Hco as [-> | [url ->]]; simpl in Heq.
    + do 2 (destruct pre as [|? pre]; simplify_eq/=).
      destruct pre as [|? pre]; simplify_eq/=.
      * exists [], pr, v. auto.
      * destruct (IH _ _ _ _ eq_refl) as (pre' & pr' & v' & -> & Hrest).
        eexists (_ :: _ :: _ :: pre'), pr', v'. split; [reflexivity|]. auto.
    + do 4 (destruct pre as [|? pre]; simplify_eq/=).
      destruct pre as [|? pre]; simplify_eq/=.
      * eexists [_; _], pr, v. split; [reflexivity|]. auto.
      * destruct (IH _ _ _ _ eq_refl) as (pre' & pr' & v' & -> & Hrest).
        eexists (_ :: _ :: _ :: _ :: _ :: pre'), pr', v'. split; [reflexivity|]. auto.
Qed.

(** In an item trace only new items are stashed. *)
Lemma items_trace_stash name new t :
  items_trace name new t ->
  Forall (fun a => match a with CallStash pr _ _ => pr ∈ new | _ => True end) t.
Proof.
  induction 1 as [|pr url extract e link t Hin Hex Ht IH
                  |pr completion v ev t Hin Hc Hco Ht IH].
  - constructor.
  - destruct Hex as [-> | ->]; simpl; repeat (constructor; simpl; auto).
  - destruct Hco as [-> | [url ->]]; simpl; repeat (constructor; simpl; auto).
Qed.

End DoitFacts.

(** ** The scraper loop *)

Section LoopFacts.
Context `{StoreOps}.

Lemma bind_Forall {A B} (P : Action -> Prop) (m : M A) (f : A -> M B) s :
  Forall P (m s).2 ->
  (forall a s', Forall P (f a s').2) ->
  Forall P ((m ≫= f) s).2.
Proof.
  intros Hm Hf. unfold mbind, M_bind, bind.
  destruct (m s) as [[[a|e] s1] t1]; simpl in *; [|exact Hm].
  specialize (Hf a s1). destruct (f a s1) as [[r s2] t2]. simpl in *.
  apply Forall_app. split; assumption.
Qed.

Lemma range_Forall {A} (P : Action -> Prop) (l : list A) (body : A -> M unit) s :
  (forall x s', Forall P (body x s').2) ->
  Forall P (range l body s).2.
Proof.
  intros Hb. revert s. induction l as [|x l IH]; intros s; simpl.
  - constructor.
  - apply bind_Forall; [apply Hb | intros _ s'; apply IH].
Qed.

Lemma scraper_loop_Forall (P : Action -> Prop) interval rounds s :
  (forall scraper s', Forall P (doit scraper s').2) ->
  (forall n, P (CallDoit n)) -> (forall n, P (ReturnDoit n)) -> P (Sleep interval) ->
  Forall P (scraper_loop interval rounds s).2.
Proof.
  intros Hd Hc Hr Hs. revert s. induction rounds as [|scrapers later IH]; intros s; simpl.
  - constructor.
  - apply bind_Forall.
    + apply range_Forall. intros scraper s'.
      apply bind_Forall; [repeat constructor; apply Hc|]. intros _ s1.
      apply bind_Forall; [apply Hd|]. intros _ s2. repeat constructor. apply Hr.
    + intros _ s1. apply bind_Forall; [repeat constructor; exact Hs|].
      intros _ s2. apply IH.
Qed.

End LoopFacts.

(** ** The scheduler, claim by claim *)

Section SchedulerClaims.
Context `{StoreOps}.

(** A listing error makes [doit] panic with that error, right after the
    call of [FetchList]: no item is processed. *)
Lemma doit_listing_error scraper s err w m :
  FetchList scraper (world s) (mem s) = (inr err, w, m) ->
  doit scraper s
    = (Panicked err, mkSigma m (store s) w, [CallFetchList (Name scraper)]).
Proof.
  intros Hl. unfold doit. unfold_steps. rewrite Hl. reflexivity.
Qed.

(** The panic of a cycle ends the scraper loop: nothing follows the failed
    listing, neither the other scrapers, nor the sleep, nor a later pass. *)
Lemma scraper_loop_listing_error interval scraper others later s err w m :
  FetchList scraper (world s) (mem s) = (inr err, w, m) ->
  scraper_loop interval ((scraper :: others) :: later) s
    = (Panicked err, mkSigma m (store s) w,
       [CallDoit (Name scraper); CallFetchList (Name scraper)]).
Proof.
  intros Hl. simpl. unfold emit, mbind, M_bind, bind. simpl.
  rewrite (doit_listing_error _ _ _ _ _ Hl). reflexivity.
Qed.

(** C6: an item whose completion ([scrape]) fails is logged and skipped:
    the loop body returns after the error line, the store is left as it
    was, nothing is stashed or published for the item, and the loop goes
    on with the remaining items from the state the failed completion
    left. *)
Theorem failed_completion_skips_item scraper pr rest s v e s1 t1 :
  mem s !! pr = Some v ->
  complete v = false ->
  scrape scraper pr s = (Returned (Some e), s1, t1) ->
  exists v1,
    mem s1 !! pr = Some v1
    /\ doit_body scraper pr s
         = (Returned tt, s1, t1 ++ [Log (LogError e (Permalink v1))])
    /\ store s1 = store s
    /\ forallb (fun a => negb (is_stash_or_publish a))
         (t1 ++ [Log (LogError e (Permalink v1))]) = true
    /\ range (pr :: rest) (doit_body scraper) s
         = (let '(r, s2, t2) := range rest (doit_body scraper) s1 in
            (r, s2, (t1 ++ [Log (LogError e (Permalink v1))]) ++ t2)).
Proof.
  intros Hv Hc Hs.
  destruct (scrape_returns scraper pr s v Hv)
    as (err & s1' & extract & Hs' & Hstore & [v1 Hv1] & Hex & _).
  rewrite Hs in Hs'. injection Hs' as <- <- ->.
  assert (Hb : doit_body scraper pr s
               = (Returned tt, s1, (CallHttpGet (Permalink v) :: extract)
                                     ++ [Log (LogError e (Permalink v1))])).
  { unfold doit_body, doit_complete. unfold_steps.
    rewrite Hv. simpl. rewrite Hc. simpl. rewrite Hs. simpl. rewrite Hv1.
    norm_trace. reflexivity. }
  exists v1. split_and!; auto.
  - destruct Hex as [-> | ->]; reflexivity.
  - simpl range. rewrite (bind_returned _ _ _ _ _ _ Hb). reflexivity.
Qed.

End SchedulerClaims.

(** ** The scheduler in the small world *)

Module DemoFacts.
Import Demo.

Lemma failed_completion_skips_item_demo :
  exists v1,
    mem listed_state !! 0%nat = Some v1
    /\ doit_body tesco 0%nat listed_state
         = (Returned tt, listed_state,
            [CallHttpGet "http://a/1"] ++ [Log (LogError "404 Not Found" (Permalink v1))])
    /\ store listed_state = store listed_state
    /\ forallb (fun a => negb (is_stash_or_publish a))
         ([CallHttpGet "http://a/1"] ++ [Log (LogError "404 Not Found" (Permalink v1))])
       = true
    /\ range [0; 1]%nat (doit_body tesco) listed_state
         = (let '(r, s2, t2) := range [1%nat] (doit_body tesco) listed_state in
            (r, s2, ([CallHttpGet "http://a/1"]
                       ++ [Log (LogError "404 Not Found" (Permalink v1))]) ++ t2)).
Proof.
  apply (failed_completion_skips_item tesco 0%nat [1%nat] listed_state
           (listed "http://a/1") "404 Not Found" listed_state
           [CallHttpGet "http://a/1"]).
  - vm_compute. reflexivity.
  - reflexivity.
  - vm_compute. reflexivity.
Defined.

(** C2, on the code: when [FetchList] of a scraper returns an error, the
    cycle processes no item, but [doit] panics with the error, and the
    panic ends the scraper loop.  With two passes over a source that is
    down and one that is up, the trace stops at the failed listing: the
    second scraper is not run, the loop does not sleep, and there is no
    second pass. *)
Theorem listing_failure_ends_loop :
  scraper_loop 600 [[down; tesco]; [down; tesco]] boot
  = (Panicked "listing fetch failed", boot,
     [CallDoit "72point"; CallFetchList "72point"]).
Proof.
  apply (scraper_loop_listing_error 600 down [tesco] [[down; tesco]] boot
           "listing fetch failed" web ∅).
  reflexivity.
Qed.

End DemoFacts.

(** ** The HTML helper *)

Section HtmlFacts.
Import Html.

Lemma getAttr_loop_skip pre rest attr :
  Forall (fun y => Key y <> attr) pre ->
  getAttr_loop (pre ++ rest) attr = getAttr_loop rest attr.
Proof.
  induction 1 as [|y pre Hy Hpre IH]; simpl; [reflexivity|].
  destruct (String.eqb_spec (Key y) attr) as [Heq|Hne]; [contradiction|exact IH].
Qed.

(** C10: [getAttr n a] is the value of the first attribute of [n] whose
    key is [a], and the empty string when no attribute of [n] has that
    key. *)
Theorem getAttr_first_match (n : Node) (a : string) :
  (forall pre x post,
      Attr n = pre ++ x :: post ->
      Forall (fun y => Key y <> a) pre ->
      Key x = a ->
      getAttr n a = Val x)
  /\ (Forall (fun y => Key y <> a) (Attr n) -> getAttr n a = "").
Proof.
  unfold getAttr. split.
  - intros pre x post -> Hpre Hx.
    rewrite getAttr_loop_skip by exact Hpre. simpl.
    rewrite <- Hx, String.eqb_refl. reflexivity.
  - intros Hall. rewrite <- (app_nil_r (Attr n)).
    rewrite getAttr_loop_skip by exact Hall. reflexivity.
Qed.

End HtmlFacts.

(** ** The event store *)

Section StoreFacts.
Local Open Scope Z_scope.

Lemma last_id_cons e rows :
  last_id (e :: rows) = Z.max (ev_id e) (last_id rows).
Proof. reflexivity. Qed.

Lemma last_id_nonneg rows : 0 <= last_id rows.
Proof.
  induction rows as [|e rows IH]; [reflexivity|]. rewrite last_id_cons. lia.
Qed.

Lemma last_id_ge rows e : e ∈ rows -> ev_id e <= last_id rows.
Proof.
  induction 1 as [e rows|e e' rows Hin IH]; rewrite last_id_cons; lia.
Qed.

Lemma last_id_app_le rows more : last_id rows <= last_id (rows ++ more).
Proof.
  induction rows as [|e rows IH]; simpl app.
  - apply last_id_nonneg.
  - rewrite !last_id_cons. lia.
Qed.

(** A step appends at most one event to the log, and the event of a
    successful append carries the identifier after the last one stored. *)
Lemma store_step_log op s :
  match store_step op s with
  | (Some ev, s1) => db s1 = db s ++ [ev] /\ ev_id ev = last_id (db s) + 1
  | (None, s1) => db s1 = db s
  end.
Proof.
  destruct op as [[] now item|]; simpl; auto.
Qed.

(** A history appends to the log exactly the events it hands out; they are
    in ascending order and beyond every identifier stored before. *)
Lemma store_run_log ops s :
  db (store_run ops s).2 = db s ++ (store_run ops s).1
  /\ ascending (store_run ops s).1
  /\ Forall (fun e => last_id (db s) < ev_id e) (store_run ops s).1.
Proof.
  revert s. induction ops as [|op later IH]; intros s; simpl.
  - rewrite app_nil_r. split_and!; constructor.
  - pose proof (store_step_log op s) as Hstep.
    destruct (store_step op s) as [r s1].
    destruct (IH s1) as (Hdb & Hasc & Hnew).
    destruct (store_run later s1) as [evs s2]. simpl in *.
    destruct r as [ev|]; simpl.
    + destruct Hstep as [Hs1 Hid]. rewrite Hs1 in Hdb, Hnew.
      assert (Hev : ev_id ev <= last_id (db s ++ [ev])).
      { apply last_id_ge. apply elem_of_app. right. left. }
      pose proof (last_id_app_le (db s) [ev]) as Hmono.
      split_and!.
      * rewrite Hdb, <- List.app_assoc. reflexivity.
      * constructor; [exact Hasc|].
        eapply Forall_impl; [exact Hnew|]. simpl. intros e He. lia.
      * constructor; [lia|].
        eapply Forall_impl; [exact Hnew|]. simpl. intros e He. lia.
    + rewrite Hstep in Hdb, Hnew. auto.
Qed.

Lemma ascending_NoDup evs : ascending evs -> NoDup (ev_id <$> evs).
Proof.
  induction 1 as [|e evs Hs IH Hall]; csimpl; constructor; [|exact IH].
  rewrite list_elem_of_fmap. intros (e' & Heq & Hin).
  rewrite Forall_forall in Hall. specialize (Hall e' Hin). lia.
Qed.

Lemma ascending_filter f evs : ascending evs -> ascending (List.filter f evs).
Proof.
  induction 1 as [|e evs Hs IH Hall]; simpl; [constructor|].
  destruct (f e); [|exact IH]. constructor; [exact IH|].
  rewrite Forall_forall in *. intros x Hx.
  apply list_elem_of_In, filter_In in Hx. apply Hall, list_elem_of_In, Hx.
Qed.

(** Once persisted, persisted for good; and what is appended is persisted. *)
Lemma persisted_append now item s c :
  persisted (append now item s).2 c
  = persisted s c || (String.eqb (Source item) (Source c)
                      && String.eqb (Permalink item) (Permalink c)).
Proof.
  unfold persisted, append. simpl. rewrite existsb_app. simpl.
  rewrite orb_false_r. reflexivity.
Qed.

Lemma persisted_persist_all now items s c :
  persisted s c = true \/ c ∈ items ->
  persisted (persist_all now items s) c = true.
Proof.
  revert s. induction items as [|item later IH]; intros s Hc; cbn [persist_all].
  - destruct Hc as [Hc|Hc]; [exact Hc|]. inversion Hc.
  - apply IH. rewrite persisted_append.
    destruct Hc as [Hc|Hc].
    + left. rewrite Hc. reflexivity.
    + apply elem_of_cons in Hc as [->|Hc]; [left|right; exact Hc].
      rewrite !String.eqb_refl. apply orb_true_r.
Qed.

Lemma filter_nil_intro {A} (f : A -> bool) (l : list A) :
  (forall x, x ∈ l -> f x = false) -> List.filter f l = [].
Proof.
  induction l as [|x l IH]; intros Hf; simpl; [reflexivity|].
  rewrite (Hf x) by left. apply IH. intros y Hy. apply Hf. right. exact Hy.
Qed.

End StoreFacts.

Section StoreClaims.
Local Open Scope Z_scope.

(** C3: over any history of appends and restarts, on any underlying
    storage, the events handed out by the appends that succeed carry
    strictly ascending identifiers, each greater than every identifier
    that was in the storage before, and no identifier is handed out
    twice. *)
Theorem append_ids_strictly_increase (disk : Storage) (ops : list StoreOp) :
  let evs := (store_run ops (NewStore disk)).1 in
  ascending evs
  /\ Forall (fun e => Forall (fun old => ev_id old < ev_id e) disk) evs
  /\ NoDup (ev_id <$> evs).
Proof.
  intros evs. destruct (store_run_log ops (NewStore disk)) as (_ & Hasc & Hnew).
  fold evs in Hasc, Hnew. split_and!.
  - exact Hasc.
  - eapply Forall_impl; [exact Hnew|]. simpl. intros e He.
    apply Forall_forall. intros old Hold.
    pose proof (last_id_ge disk old Hold). lia.
  - apply ascending_NoDup, Hasc.
Qed.

(** C4: after the items that [filterNew] returns for [C] have all been
    appended, [filterNew] returns nothing for [C]. *)
Theorem filterNew_idempotent (s : EventStore) (C : list PressRelease) (now : Time) :
  filterNew (persist_all now (filterNew s C) s) C = [].
Proof.
  unfold filterNew at 1. apply filter_nil_intro. intros c Hc.
  apply negb_false_iff, persisted_persist_all.
  destruct (persisted s c) eqn:Hp; [left; reflexivity|right].
  unfold filterNew. apply list_elem_of_In, filter_In.
  split; [apply list_elem_of_In, Hc|]. rewrite Hp. reflexivity.
Qed.

(** C5: on a store that a history of appends and restarts has filled,
    [replaySince topic c] holds exactly the persisted events of the topic
    whose identifier is greater than [c], each once, in strictly
    ascending order of identifiers, which is the order of the log. *)
Theorem replaySince_exact (ops : list StoreOp) (topic : string) (c : Z) :
  let s := (store_run ops (NewStore [])).2 in
  let r := replaySince s topic (Some c) in
  (forall e, e ∈ r <-> e ∈ db s /\ ev_topic e = topic /\ c < ev_id e)
  /\ ascending r
  /\ NoDup r
  /\ sublist r (db s).
Proof.
  intros s r. split_and!.
  - intros e. unfold r, replaySince.
    rewrite list_elem_of_In, filter_In, <- list_elem_of_In.
    rewrite andb_true_iff. simpl.
    rewrite Z.ltb_lt. split.
    + intros (Hin & Ht & Hc). apply String.eqb_eq in Ht. auto.
    + intros (Hin & Ht & Hc). rewrite Ht, String.eqb_refl. auto.
  - apply ascending_filter.
    destruct (store_run_log ops (NewStore [])) as (Hdb & Hasc & _).
    unfold s. rewrite Hdb. exact Hasc.
  - assert (Hasc : ascending r).
    { apply ascending_filter.
      destruct (store_run_log ops (NewStore [])) as (Hdb & Hasc & _).
      unfold s. rewrite Hdb. exact Hasc. }
    apply ascending_NoDup in Hasc. eapply NoDup_fmap_1, Hasc.
  - unfold r, replaySince. generalize (db s). intros rows.
    induction rows as [|e rows IH]; simpl; [constructor|].
    destruct (_ && _); [apply sublist_skip|apply sublist_cons]; exact IH.
Qed.

End StoreClaims.

(** The end-to-end scenario on the store: the identifiers 1, 2 and 3, the
    dedup of a stored permalink and the replay from cursor 0. *)
Example store_scenario :
  let a1 := mkPressRelease "" "tesco" "http://a/1" 0%Z "" true in
  let a2 := mkPressRelease "" "tesco" "http://a/2" 0%Z "" true in
  let a3 := mkPressRelease "" "tesco" "http://a/3" 0%Z "" true in
  let '(e1, s1) := append 7%Z a1 (NewStore []) in
  let '(e2, s2) := append 8%Z a2 s1 in
  let '(e3, s3) := append 9%Z a3 s2 in
  ev_id e1 = 1%Z /\ ev_id e2 = 2%Z /\ ev_id e3 = 3%Z
  /\ filterNew s2 [a1] = []
  /\ replaySince s2 "tesco" (Some 0%Z) = [e1; e2]
  /\ replaySince s3 "tesco" (Some 2%Z) = [e3].
Proof. vm_compute. split_and!; reflexivity. Qed.

(** ** More on the HTML helpers *)

Section HtmlMore.
Import Html.

Lemma string_append_nil_r s : String.append s "" = s.
Proof.
  induction s as [|c s IH]; [reflexivity|]. exact (f_equal (String c) IH).
Qed.

Lemma string_append_assoc a b c :
  String.append (String.append a b) c = String.append a (String.append b c).
Proof.
  induction a as [|x a IH]; [reflexivity|]. exact (f_equal (String x) IH).
Qed.

Lemma join_app l1 l2 : join (l1 ++ l2) = String.append (join l1) (join l2).
Proof.
  induction l1 as [|x l1 IH]; [reflexivity|].
  change (String.append x (join (l1 ++ l2))
          = String.append (String.append x (join l1)) (join l2)).
  rewrite IH, string_append_assoc. reflexivity.
Qed.

(** Induction on a node with the property at hand for all its children. *)
Lemma Node_children_ind (P : Node -> Prop) :
  (forall ty data attrs kids, Forall P kids -> P (mkNode ty data attrs kids)) ->
  forall n, P n.
Proof.
  intros Hnode. fix IH 1. intros [ty data attrs kids]. apply Hnode.
  induction kids as [|k kids IHkids]; constructor; [apply IH|exact IHkids].
Qed.

(** The loop of [getTextContent], as a left fold over the children. *)
Lemma getTextContent_children ty data attrs kids :
  getTextContent (mkNode ty data attrs kids)
  = if is_TextNode ty then data
    else fold_left (fun txt c => String.append txt (getTextContent c)) kids "".
Proof.
  simpl. destruct (is_TextNode ty); [reflexivity|].
  generalize "". induction kids as [|k kids IH]; intros txt; [reflexivity|].
  simpl. apply IH.
Qed.

Lemma getTextContent_join n : getTextContent n = join (text_nodes n).
Proof.
  induction n as [ty data attrs kids IH] using Node_children_ind.
  rewrite getTextContent_children. simpl text_nodes.
  destruct (is_TextNode ty); [symmetry; apply string_append_nil_r|].
  assert (Hfold : forall txt,
             fold_left (fun txt c => String.append txt (getTextContent c)) kids txt
             = String.append txt (join (flat_map text_nodes kids))).
  { induction IH as [|k kids Hk Hkids IHkids]; intros txt; simpl.
    - symmetry. apply string_append_nil_r.
    - rewrite IHkids, Hk, join_app, string_append_assoc. reflexivity. }
  apply Hfold.
Qed.

Lemma text_nodes_map_attrs f n : text_nodes (map_attrs f n) = text_nodes n.
Proof.
  induction n as [ty data attrs kids IH] using Node_children_ind.
  simpl. destruct (is_TextNode ty); [reflexivity|].
  induction IH as [|k kids Hk Hkids IHkids]; simpl; [reflexivity|].
  rewrite Hk, IHkids. reflexivity.
Qed.

(** X1: the text content of a node is the data of the text nodes of its
    tree, appended in document order; tag names, comments, attributes
    and whatever hangs below a text node contribute nothing. *)
Theorem getTextContent_is_text_in_document_order (n : Node) :
  getTextContent n = join (text_nodes n).
Proof. apply getTextContent_join. Qed.

(** X2: the text content of a tree does not depend on its attributes:
    rewriting or removing attributes anywhere in the tree leaves it what
    it was. *)
Theorem getTextContent_ignores_attributes
    (f : list Attribute -> list Attribute) (n : Node) :
  getTextContent (map_attrs f n) = getTextContent n.
Proof.
  rewrite !getTextContent_join, text_nodes_map_attrs. reflexivity.
Qed.

(** X3: a result of [getAttr] other than the empty string is the value of
    an attribute that the node has under that key. *)
Theorem getAttr_nonempty_is_attribute (n : Node) (a : string) :
  getAttr n a <> "" ->
  exists x, x ∈ Attr n /\ Key x = a /\ Val x = getAttr n a.
Proof.
  unfold getAttr. induction (Attr n) as [|y attrs IH]; simpl; [congruence|].
  destruct (String.eqb_spec (Key y) a) as [Hk|Hk].
  - intros _. exists y. split; [left|auto].
  - intros Hne. destruct (IH Hne) as (x & Hin & Hx). exists x. split; [right; exact Hin|exact Hx].
Qed.

Lemma getAttr_nonempty_is_attribute_witness :
  exists x,
    x ∈ Attr (mkNode ElementNode "a" [mkAttribute "" "href" "http://a/1"] [])
    /\ Key x = "href"
    /\ Val x = getAttr (mkNode ElementNode "a" [mkAttribute "" "href" "http://a/1"] []) "href".
Proof.
  apply (getAttr_nonempty_is_attribute
           (mkNode ElementNode "a" [mkAttribute "" "href" "http://a/1"] []) "href").
  vm_compute. discriminate.
Defined.

End HtmlMore.

(** ** More on [contains] *)

Section ContainsFacts.
Import Html.

Lemma ancestor_add parents j k a :
  ancestor parents (j + k) a
  = match ancestor parents j a with
    | Some b => ancestor parents k b
    | None => None
    end.
Proof.
  revert a. induction j as [|j IH]; intros a; simpl; [reflexivity|].
  destruct (parents !! a) as [p|]; [apply IH|reflexivity].
Qed.

(** The loop answers true exactly when the container is met on the chain
    of parents within the iterations it is given. *)
Lemma contains_loop_true parents fuel c cur :
  contains_loop parents fuel (Some c) cur = Some true
  <-> exists k a, k < fuel /\ cur = Some a /\ ancestor parents k a = Some c.
Proof.
  revert cur. induction fuel as [|fuel IH]; intros cur; simpl.
  - split; [discriminate|]. intros (k & a & Hk & _). lia.
  - destruct cur as [a|].
    + destruct (decide (Some a = Some c)) as [Heq|Hne].
      * split; [|reflexivity]. intros _. exists 0, a. simpl. split; [lia|auto].
      * rewrite IH. split.
        -- intros (k & p & Hk & Hp & Hanc). exists (S k), a. simpl. rewrite Hp.
           split; [lia|auto].
        -- intros (k & a' & Hk & Ha & Hanc). injection Ha as <-.
           destruct k as [|k]; simpl in Hanc; [contradiction|].
           destruct (parents !! a) as [p|] eqn:Hp; [|discriminate].
           exists k, p. split; [lia|auto].
    + split; [discriminate|]. intros (k & a & _ & Ha & _). discriminate.
Qed.

Lemma contains_true parents fuel c n :
  contains parents fuel (Some c) n = Some true
  <-> exists k, k < fuel /\ ancestor parents (S k) n = Some c.
Proof.
  unfold contains. rewrite contains_loop_true. simpl. split.
  - intros (k & p & Hk & Hp & Hanc). exists k. rewrite Hp. auto.
  - intros (k & Hk & Hanc). destruct (parents !! n) as [p|]; [|discriminate].
    exists k, p. auto.
Qed.

(** The loop answers false only when the chain of parents ends without
    meeting the container. *)
Lemma contains_loop_false parents fuel c cur :
  contains_loop parents fuel (Some c) cur = Some false ->
  forall k a, cur = Some a -> ancestor parents k a <> Some c.
Proof.
  revert cur. induction fuel as [|fuel IH]; intros cur; simpl; [discriminate|].
  destruct cur as [a|]; [|intros _ k a Ha; discriminate].
  destruct (decide (Some a = Some c)) as [Heq|Hne]; [discriminate|].
  intros Hloop k a' Ha. injection Ha as <-.
  destruct k as [|k]; simpl; [exact Hne|].
  destruct (parents !! a) as [p|] eqn:Hp; [|discriminate].
  apply (IH _ Hloop k p eq_refl).
Qed.

Lemma ancestor_rank (rank : nat -> nat) (parents : gmap nat nat) :
  map_Forall (fun a p => rank p < rank a) parents ->
  forall k a b, ancestor parents k a = Some b -> rank b + k <= rank a.
Proof.
  intros Hrank. induction k as [|k IH]; intros a b; simpl.
  - intros [= ->]. lia.
  - destruct (parents !! a) as [p|] eqn:Hp; [|discriminate].
    intros Hanc. specialize (IH _ _ Hanc). specialize (Hrank _ _ Hp). simpl in Hrank. lia.
Qed.

Lemma contains_loop_returns (rank : nat -> nat) (parents : gmap nat nat) container :
  map_Forall (fun a p => rank p < rank a) parents ->
  forall fuel cur,
    match cur with Some a => rank a + 1 < fuel | None => 0 < fuel end ->
    is_Some (contains_loop parents fuel container cur).
Proof.
  intros Hrank. induction fuel as [|fuel IH]; intros cur Hfuel.
  - destruct cur; lia.
  - simpl. destruct cur as [a|]; [|eauto].
    destruct (decide (Some a = container)); [eauto|].
    apply IH. destruct (parents !! a) as [p|] eqn:Hp; [|lia].
    specialize (Hrank _ _ Hp). simpl in Hrank. lia.
Qed.

(** X4: whenever [contains] returns, it returns true exactly when the
    container is a proper ancestor of the node: one or more [Parent]
    links above it. *)
Theorem contains_iff_proper_ancestor (parents : gmap nat nat) fuel c n b :
  contains parents fuel (Some c) n = Some b ->
  (b = true <-> exists k, ancestor parents (S k) n = Some c).
Proof.
  intros Hc. destruct b.
  - split; [|reflexivity]. intros _.
    apply contains_true in Hc as (k & _ & Hk). eauto.
  - split; [discriminate|]. intros (k & Hk). exfalso.
    unfold contains in Hc. simpl in Hk.
    destruct (parents !! n) as [p|]; [|discriminate].
    exact (contains_loop_false _ _ _ _ Hc k p eq_refl Hk).
Qed.

Lemma contains_iff_proper_ancestor_witness :
  true = true <-> exists k, ancestor Demo.chain (S k) 2 = Some 0.
Proof.
  apply (contains_iff_proper_ancestor Demo.chain 3 0 2 true).
  vm_compute. reflexivity.
Defined.

(** X5: on parent links without a cycle (every link goes to a node of
    smaller rank), [contains] returns, within as many iterations as the
    rank of the node allows. *)
Theorem contains_returns_on_trees (rank : nat -> nat) (parents : gmap nat nat)
    fuel container n :
  map_Forall (fun a p => rank p < rank a) parents ->
  rank n < fuel ->
  is_Some (contains parents fuel container n).
Proof.
  intros Hrank Hfuel. unfold contains.
  apply (contains_loop_returns rank); [exact Hrank|].
  destruct (parents !! n) as [p|] eqn:Hp; [|lia].
  specialize (Hrank _ _ Hp). simpl in Hrank. lia.
Qed.

Lemma chain_ranked : map_Forall (fun a p : nat => id p < id a) Demo.chain.
Proof.
  unfold Demo.chain. apply map_Forall_insert_2; [simpl; unfold id; lia|].
  apply map_Forall_insert_2; [simpl; unfold id; lia|]. apply map_Forall_empty.
Qed.

Lemma contains_returns_on_trees_witness :
  is_Some (contains Demo.chain 3 (Some 0) 2).
Proof.
  apply (contains_returns_on_trees id Demo.chain 3 (Some 0) 2).
  - exact chain_ranked.
  - unfold id. lia.
Defined.

(** X6: on parent links without a cycle no node contains itself: the walk
    starts at the parent. *)
Theorem contains_irreflexive (rank : nat -> nat) (parents : gmap nat nat) fuel n :
  map_Forall (fun a p => rank p < rank a) parents ->
  contains parents fuel (Some n) n <> Some true.
Proof.
  intros Hrank Hc. apply contains_true in Hc as (k & _ & Hk).
  pose proof (ancestor_rank rank parents Hrank _ _ _ Hk). lia.
Qed.

Lemma contains_irreflexive_witness :
  contains Demo.chain 3 (Some 2) 2 <> Some true.
Proof.
  apply (contains_irreflexive id Demo.chain 3 2). exact chain_ranked.
Defined.

(** X7: containment is transitive: when [a] contains [b] and [b]
    contains [c], [a] contains [c], within the iterations of both walks
    together. *)
Theorem contains_transitive (parents : gmap nat nat) f1 f2 a b c :
  contains parents f1 (Some a) b = Some true ->
  contains parents f2 (Some b) c = Some true ->
  contains parents (f1 + f2) (Some a) c = Some true.
Proof.
  intros Hab Hbc.
  apply contains_true in Hab as (k1 & Hk1 & Hab).
  apply contains_true in Hbc as (k2 & Hk2 & Hbc).
  apply contains_true. exists (k2 + S k1). split; [lia|].
  change (S (k2 + S k1)) with (S k2 + S k1).
  rewrite ancestor_add, Hbc. exact Hab.
Qed.

Lemma contains_transitive_witness :
  contains Demo.chain (2 + 2) (Some 0) 2 = Some true.
Proof.
  apply (contains_transitive Demo.chain 2 2 0 1 2); vm_compute; reflexivity.
Defined.

(** X8: nothing is contained in the nil container, and a node without
    parent is contained in nothing. *)
Theorem contains_nil_and_root (parents : gmap nat nat) fuel container n :
  contains parents (S fuel) None n <> Some true
  /\ (parents !! n = None -> contains parents (S fuel) container n = Some false).
Proof.
  split.
  - unfold contains. generalize (parents !! n). generalize (S fuel).
    intros f. induction f as [|f IH]; intros cur; simpl; [discriminate|].
    destruct cur as [p|]; [|discriminate].
    destruct (decide (Some p = None)); [discriminate|]. apply IH.
  - intros Hn. unfold contains. rewrite Hn. reflexivity.
Qed.

End ContainsFacts.

(** ** More on [scrape] *)

Section ScrapeFacts.
Context `{StoreOps}.

(** [scrape] on a live pointer, case by case. *)
Lemma scrape_cases scraper pr s v :
  mem s !! pr = Some v ->
  scrape scraper pr s
  = match http_Get (Permalink v) (world s) with
    | (inr e, w) =>
        (Returned (Some e), mkSigma (mem s) (store s) w, [CallHttpGet (Permalink v)])
    | (inl resp, w1) =>
        match ioutil_ReadAll resp w1 with
        | (inr e, w2) =>
            (Returned (Some e), mkSigma (mem s) (store s) (Body_Close resp w2),
             [CallHttpGet (Permalink v)])
        | (inl html, w2) =>
            let '(v', err) := Scrape scraper v html in
            (Returned err,
             mkSigma (<[pr := v']> (mem s)) (store s) (Body_Close resp w2),
             [CallHttpGet (Permalink v); CallScrape (Name scraper) pr])
        end
    end.
Proof.
  intros Hv. unfold scrape, deref, call_http_Get, call_ReadAll, call_Scrape,
    call_Close, mbind, M_bind, bind, mret, M_ret, ret. simpl. rewrite Hv.
  destruct (http_Get (Permalink v) (world s)) as [[resp|e] w1]; simpl; [|reflexivity].
  destruct (ioutil_ReadAll resp w1) as [[html|e] w2]; simpl; [|reflexivity].
  rewrite Hv. destruct (Scrape scraper v html) as [v' err]. reflexivity.
Qed.

Lemma scrape_nil scraper pr s :
  mem s !! pr = None ->
  scrape scraper pr s
  = (Panicked "invalid memory address or nil pointer dereference", s, []).
Proof.
  intros Hv. unfold scrape, deref, mbind, M_bind, bind. rewrite Hv. reflexivity.
Qed.

Lemma scrape_frame scraper pr s :
  store (scrape scraper pr s).1.2 = store s
  /\ (forall q, q <> pr -> mem (scrape scraper pr s).1.2 !! q = mem s !! q)
  /\ (is_Some (mem s !! pr) <-> is_Some (mem (scrape scraper pr s).1.2 !! pr)).
Proof.
  destruct (mem s !! pr) as [v|] eqn:Hv.
  - rewrite (scrape_cases _ _ _ _ Hv).
    destruct (http_Get (Permalink v) (world s)) as [[resp|e] w1]; simpl.
    2:{ rewrite Hv. split_and!; auto. }
    destruct (ioutil_ReadAll resp w1) as [[html|e] w2]; simpl.
    2:{ rewrite Hv. split_and!; auto. }
    destruct (Scrape scraper v html) as [v' err]; simpl.
    split_and!; [reflexivity| |].
    + intros q Hq. apply lookup_insert_ne. congruence.
    + rewrite lookup_insert_eq. split; eauto.
  - rewrite (scrape_nil _ _ _ Hv). simpl. rewrite Hv. split_and!; auto.
Qed.

(** X9: [scrape] writes through its pointer only: it leaves the store and
    every other press release as they were, and the pointer stays live. *)
Theorem scrape_writes_only_through_pointer scraper pr s :
  let s1 := (scrape scraper pr s).1.2 in
  store s1 = store s
  /\ (forall q, q <> pr -> mem s1 !! q = mem s !! q)
  /\ (is_Some (mem s !! pr) <-> is_Some (mem s1 !! pr)).
Proof. apply scrape_frame. Qed.

(** X10: when the page cannot be fetched ([http.Get] fails, or reading the
    body fails), [scrape] returns that very error, the extraction is not
    called, and no press release is modified. *)
Theorem scrape_fetch_error_changes_nothing scraper pr s v e :
  mem s !! pr = Some v ->
  (http_Get (Permalink v) (world s)).1 = inr e
  \/ (exists resp,
        (http_Get (Permalink v) (world s)).1 = inl resp
        /\ (ioutil_ReadAll resp (http_Get (Permalink v) (world s)).2).1 = inr e) ->
  (scrape scraper pr s).1.1 = Returned (Some e)
  /\ mem (scrape scraper pr s).1.2 = mem s
  /\ (scrape scraper pr s).2 = [CallHttpGet (Permalink v)].
Proof.
  intros Hv Hfail. rewrite (scrape_cases _ _ _ _ Hv).
  destruct (http_Get (Permalink v) (world s)) as [[resp|e1] w1]; simpl in *.
  - destruct Hfail as [Hf|(resp' & Hr & Hf)]; [discriminate|].
    injection Hr as <-.
    destruct (ioutil_ReadAll resp w1) as [[html|e2] w2]; simpl in *; [discriminate|].
    injection Hf as <-. auto.
  - destruct Hfail as [Hf|(resp' & Hr & _)]; [|discriminate].
    injection Hf as <-. auto.
Qed.

(** X11: once [http.Get] has handed out a response, the deferred [Close]
    of its body runs on every path, after the read: whether the read
    fails, the extraction fails or all goes well, the world [scrape]
    leaves is the one after the read with that body closed. *)
Theorem scrape_closes_body scraper pr s v resp w1 :
  mem s !! pr = Some v ->
  http_Get (Permalink v) (world s) = (inl resp, w1) ->
  world (scrape scraper pr s).1.2 = Body_Close resp (ioutil_ReadAll resp w1).2.
Proof.
  intros Hv Hget. rewrite (scrape_cases _ _ _ _ Hv), Hget.
  destruct (ioutil_ReadAll resp w1) as [[html|e] w2]; simpl; [|reflexivity].
  destruct (Scrape scraper v html) as [v' err]. reflexivity.
Qed.

(** X12: [scrape] returns a nil error only when the page was fetched and
    read and the extraction of that page reported no error; the press
    release then holds what the extraction made of it. *)
Theorem scrape_nil_error_means_extracted scraper pr s v :
  mem s !! pr = Some v ->
  (scrape scraper pr s).1.1 = Returned None ->
  exists resp html v',
    (http_Get (Permalink v) (world s)).1 = inl resp
    /\ (ioutil_ReadAll resp (http_Get (Permalink v) (world s)).2).1 = inl html
    /\ Scrape scraper v html = (v', None)
    /\ mem (scrape scraper pr s).1.2 = <[pr := v']> (mem s).
Proof.
  intros Hv. rewrite (scrape_cases _ _ _ _ Hv).
  destruct (http_Get (Permalink v) (world s)) as [[resp|e] w1]; simpl; [|discriminate].
  destruct (ioutil_ReadAll resp w1) as [[html|e] w2] eqn:Hread; simpl; [|discriminate].
  destruct (Scrape scraper v html) as [v' err] eqn:Hscr; simpl.
  intros [= ->]. exists resp, html, v'. rewrite Hread. split_and!; auto.
Qed.

End ScrapeFacts.

(** ** More on [doit] *)

Section DoitMore.
Context `{StoreOps}.

Lemma doit_body_nil scraper pr s :
  mem s !! pr = None ->
  doit_body scraper pr s
  = (Panicked "invalid memory address or nil pointer dereference", s, []).
Proof.
  intros Hv. unfold doit_body, doit_complete. unfold_steps. rewrite Hv. reflexivity.
Qed.

(** The loop body on a press release that is complete: no completion, a
    stash, its log line and a publish; the memory and the world stay. *)
Lemma doit_body_complete scraper pr s v :
  mem s !! pr = Some v ->
  complete v = true ->
  doit_body scraper pr s
  = (Returned tt,
     mkSigma (mem s) (Stash (world s) v (store s)).2 (world s),
     [CallStash pr v (Stash (world s) v (store s)).1;
      Log (LogStashed (Name scraper) (Permalink v));
      CallPublish [Source v] (Stash (world s) v (store s)).1]).
Proof.
  intros Hv Hc. unfold doit_body, doit_complete. unfold_steps.
  rewrite Hv. simpl. rewrite Hc. simpl. rewrite Hv.
  destruct (Stash (world s) v (store s)) as [ev st]. simpl. rewrite Hv. reflexivity.
Qed.

(** The loop body writes through its pointer only; when it returns it has
    either stashed and published once, or logged one error; a panic
    leaves no action. *)
Lemma doit_body_summary scraper pr s :
  (forall q, q <> pr -> mem (doit_body scraper pr s).1.2 !! q = mem s !! q)
  /\ match (doit_body scraper pr s).1.1 with
     | Returned _ =>
         length (List.filter is_stash (doit_body scraper pr s).2)
         + length (List.filter is_error_log (doit_body scraper pr s).2) = 1
         /\ length (List.filter is_publish (doit_body scraper pr s).2)
            = length (List.filter is_stash (doit_body scraper pr s).2)
     | Panicked _ => (doit_body scraper pr s).2 = []
     end.
Proof.
  destruct (mem s !! pr) as [v|] eqn:Hv.
  2:{ rewrite (doit_body_nil _ _ _ Hv). simpl. auto. }
  destruct (complete v) eqn:Hc.
  { rewrite (doit_body_complete _ _ _ _ Hv Hc). simpl. auto. }
  destruct (scrape_returns scraper pr s v Hv)
    as (err & s1 & extract & Hs & Hstore & [v1 Hv1] & Hex & Hok).
  destruct (scrape_frame scraper pr s) as (_ & Hframe & _).
  rewrite Hs in Hframe. simpl in Hframe.
  unfold doit_body, doit_complete. unfold_steps.
  rewrite Hv. simpl. rewrite Hc. simpl. rewrite Hs.
  destruct err as [e|]; simpl.
  - rewrite Hv1. simpl. split; [exact Hframe|].
    destruct Hex as [-> | ->]; simpl; auto.
  - rewrite Hv1. simpl. rewrite lookup_insert_eq.
    destruct (Stash (world s1) (with_complete true v1) (store s1)) as [ev st]. simpl.
    rewrite lookup_insert_eq. simpl. split.
    + intros q Hq. rewrite lookup_insert_ne by congruence. apply Hframe, Hq.
    + rewrite (Hok eq_refl). simpl. auto.
Qed.

Lemma range_frame scraper l s q :
  q ∉ l ->
  mem (range l (doit_body scraper) s).1.2 !! q = mem s !! q.
Proof.
  revert s. induction l as [|pr l IH]; intros s Hq; [reflexivity|].
  apply not_elem_of_cons in Hq as [Hne Hq].
  destruct (doit_body_summary scraper pr s) as [Hframe _].
  simpl. unfold mbind, M_bind, bind.
  destruct (doit_body scraper pr s) as [[[[]|e] s1] t1]; simpl in *.
  - specialize (IH s1 Hq). destruct (range l (doit_body scraper) s1) as [[r2 s2] t2].
    simpl in *. rewrite IH. apply Hframe, Hne.
  - apply Hframe, Hne.
Qed.

Lemma filter_length_app {A} (f : A -> bool) (l1 l2 : list A) :
  length (List.filter f (l1 ++ l2))
  = length (List.filter f l1) + length (List.filter f l2).
Proof. rewrite List.filter_app, length_app. reflexivity. Qed.

Lemma range_counts scraper l s :
  (range l (doit_body scraper) s).1.1 = Returned tt ->
  length (List.filter is_stash (range l (doit_body scraper) s).2)
  + length (List.filter is_error_log (range l (doit_body scraper) s).2) = length l
  /\ length (List.filter is_publish (range l (doit_body scraper) s).2)
     = length (List.filter is_stash (range l (doit_body scraper) s).2).
Proof.
  revert s. induction l as [|pr l IH]; intros s; [simpl; auto|].
  destruct (doit_body_summary scraper pr s) as [_ Hone].
  simpl. unfold mbind, M_bind, bind.
  destruct (doit_body scraper pr s) as [[[[]|e] s1] t1]; simpl in *; [|discriminate].
  specialize (IH s1). destruct (range l (doit_body scraper) s1) as [[r2 s2] t2].
  simpl in *. intros Hr. specialize (IH Hr). rewrite !filter_length_app. lia.
Qed.

(** Over press releases that are all complete the loop only stashes and
    publishes: the memory and the world are left alone. *)
Lemma range_complete scraper l s :
  forallb (fun p => match mem s !! p with
                    | Some v => complete v
                    | None => false
                    end) l = true ->
  (range l (doit_body scraper) s).1.1 = Returned tt
  /\ mem (range l (doit_body scraper) s).1.2 = mem s
  /\ world (range l (doit_body scraper) s).1.2 = world s
  /\ forallb (fun a => negb (is_completion a)) (range l (doit_body scraper) s).2 = true
  /\ length (List.filter is_stash (range l (doit_body scraper) s).2) = length l.
Proof.
  revert s. induction l as [|pr l IH]; intros s Hall; [simpl; auto|].
  simpl in Hall. apply andb_true_iff in Hall as [Hpr Hall].
  destruct (mem s !! pr) as [v|] eqn:Hv; [|discriminate].
  simpl. unfold mbind, M_bind, bind.
  rewrite (doit_body_complete _ _ _ _ Hv Hpr).
  match goal with
  | |- context [range l _ ?s1] => specialize (IH s1 Hall);
      destruct (range l (doit_body scraper) s1) as [[r2 s2] t2]
  end.
  simpl in *. destruct IH as (-> & -> & -> & -> & ->). auto.
Qed.

(** [doit] after a listing that succeeded. *)
Lemma doit_listed scraper s prs w m :
  FetchList scraper (world s) (mem s) = (inl prs, w, m) ->
  doit scraper s
  = (let new := WhichAreNew (store s) m prs in
     let '(r, s', t) := range new (doit_body scraper) (mkSigma m (store s) w) in
     (r, s', CallFetchList (Name scraper) :: CallWhichAreNew prs new
               :: Log (LogReleases (Name scraper) (length prs) (length new)) :: t)).
Proof.
  intros Hl. unfold doit. unfold_steps. rewrite Hl. simpl.
  destruct (range _ _ _) as [[r s'] t]. reflexivity.
Qed.

(** X13: a cycle that returns has accounted for every new press release:
    each was either stashed or logged as an error, and there are as many
    publishes as stashes. *)
Theorem doit_accounts_for_new_items scraper s prs w m :
  FetchList scraper (world s) (mem s) = (inl prs, w, m) ->
  (doit scraper s).1.1 = Returned tt ->
  length (List.filter is_stash (doit scraper s).2)
  + length (List.filter is_error_log (doit scraper s).2)
  = length (WhichAreNew (store s) m prs)
  /\ length (List.filter is_publish (doit scraper s).2)
     = length (List.filter is_stash (doit scraper s).2).
Proof.
  intros Hl. rewrite (doit_listed _ _ _ _ _ Hl). simpl.
  pose proof (range_counts scraper (WhichAreNew (store s) m prs)
                (mkSigma m (store s) w)) as Hc.
  destruct (range _ _ _) as [[r s'] t]. simpl in *. exact Hc.
Qed.

(** X14: when every new press release of the listing is complete, the
    cycle fetches no page and runs no extraction: it returns, with the
    memory and the world as the listing left them, after one stash per
    new press release. *)
Theorem doit_complete_listing_fetches_nothing scraper s prs w m :
  FetchList scraper (world s) (mem s) = (inl prs, w, m) ->
  forallb (fun p => match m !! p with
                    | Some v => complete v
                    | None => false
                    end) (WhichAreNew (store s) m prs) = true ->
  (doit scraper s).1.1 = Returned tt
  /\ mem (doit scraper s).1.2 = m
  /\ world (doit scraper s).1.2 = w
  /\ forallb (fun a => negb (is_completion a)) (doit scraper s).2 = true
  /\ length (List.filter is_stash (doit scraper s).2)
     = length (WhichAreNew (store s) m prs).
Proof.
  intros Hl Hall. rewrite (doit_listed _ _ _ _ _ Hl). simpl.
  pose proof (range_complete scraper (WhichAreNew (store s) m prs)
                (mkSigma m (store s) w) Hall) as Hc.
  destruct (range _ _ _) as [[r s'] t]. simpl in *. exact Hc.
Qed.

(** X15: a cycle writes only to the press releases the store reported as
    new: every other one, the already stored ones of the listing
    included, is left as the listing made it. *)
Theorem doit_writes_only_new_releases scraper s prs w m q :
  FetchList scraper (world s) (mem s) = (inl prs, w, m) ->
  q ∉ WhichAreNew (store s) m prs ->
  mem (doit scraper s).1.2 !! q = m !! q.
Proof.
  intros Hl Hq. rewrite (doit_listed _ _ _ _ _ Hl). simpl.
  pose proof (range_frame scraper (WhichAreNew (store s) m prs)
                (mkSigma m (store s) w) q Hq) as Hf.
  destruct (range _ _ _) as [[r s'] t]. simpl in *. exact Hf.
Qed.

Lemma doit_body_store scraper pr s :
  List.filter is_stash (doit_body scraper pr s).2 = [] ->
  store (doit_body scraper pr s).1.2 = store s.
Proof.
  destruct (mem s !! pr) as [v|] eqn:Hv.
  2:{ rewrite (doit_body_nil _ _ _ Hv). reflexivity. }
  destruct (complete v) eqn:Hc.
  { rewrite (doit_body_complete _ _ _ _ Hv Hc). simpl. discriminate. }
  destruct (scrape_returns scraper pr s v Hv)
    as (err & s1 & extract & Hs & Hstore & [v1 Hv1] & Hex & Hok).
  unfold doit_body, doit_complete. unfold_steps.
  rewrite Hv. simpl. rewrite Hc. simpl. rewrite Hs.
  destruct err as [e|]; simpl.
  - rewrite Hv1. simpl. intros _. exact Hstore.
  - rewrite Hv1. simpl. rewrite lookup_insert_eq.
    destruct (Stash (world s1) (with_complete true v1) (store s1)) as [ev st]. simpl.
    rewrite lookup_insert_eq. simpl. rewrite (Hok eq_refl). simpl. discriminate.
Qed.

Lemma range_store scraper l s :
  List.filter is_stash (range l (doit_body scraper) s).2 = [] ->
  store (range l (doit_body scraper) s).1.2 = store s.
Proof.
  revert s. induction l as [|pr l IH]; intros s; [reflexivity|].
  pose proof (doit_body_store scraper pr s) as Hb.
  simpl. unfold mbind, M_bind, bind.
  destruct (doit_body scraper pr s) as [[[[]|e] s1] t1]; simpl in *; [|exact Hb].
  specialize (IH s1). destruct (range l (doit_body scraper) s1) as [[r2 s2] t2].
  simpl in *. rewrite List.filter_app. intros Hnil.
  apply app_eq_nil in Hnil as [H1 H2]. rewrite (IH H2). apply Hb, H1.
Qed.

(** X22: a cycle changes the store through [Stash] only: a cycle that
    stashes nothing, because the listing failed, nothing was new or every
    completion failed, leaves the store as it was. *)
Theorem doit_without_stash_keeps_store scraper s :
  List.filter is_stash (doit scraper s).2 = [] ->
  store (doit scraper s).1.2 = store s.
Proof.
  destruct (FetchList scraper (world s) (mem s)) as [[[prs|err] w] m] eqn:Hl.
  - rewrite (doit_listed _ _ _ _ _ Hl). simpl.
    pose proof (range_store scraper (WhichAreNew (store s) m prs)
                  (mkSigma m (store s) w)) as Hr.
    destruct (range _ _ _) as [[r s'] t]. simpl in *. exact Hr.
  - unfold doit. unfold_steps. rewrite Hl. reflexivity.
Qed.

End DoitMore.

(** ** The scrapers of [main] and its first modes *)

Section MainFacts.
Context `{StoreOps}.

Lemma build_scrapers_snoc foo scraper :
  build_scrapers (foo ++ [scraper])
  = <[Name scraper := scraper]> (build_scrapers foo).
Proof. unfold build_scrapers. rewrite foldl_app. reflexivity. Qed.

Lemma build_scrapers_lookup foo name :
  build_scrapers foo !! name
  = last (filter (fun scraper => Name scraper = name) foo).
Proof.
  induction foo as [|scraper foo IH] using rev_ind; [reflexivity|].
  rewrite build_scrapers_snoc, filter_app.
  destruct (decide (Name scraper = name)) as [Heq|Hne].
  - rewrite filter_cons_True by exact Heq. rewrite filter_nil, last_snoc.
    rewrite <- Heq. apply lookup_insert_eq.
  - rewrite filter_cons_False by exact Hne. rewrite filter_nil, app_nil_r.
    rewrite lookup_insert_ne by exact Hne. exact IH.
Qed.

(** X17: in the map of scrapers a name leads to the last scraper of the
    array that goes by it, and to nothing when none does: of two scrapers
    with one name the earlier one is dropped. *)
Theorem scrapers_map_keeps_last_of_a_name (foo : list Scraper) (name : string) :
  build_scrapers foo !! name
  = last (filter (fun scraper => Name scraper = name) foo).
Proof. apply build_scrapers_lookup. Qed.


Ltac unfold_T :=
  unfold lift, write, mbind, T_mbind, T_bind, mret, T_mret, T_ret,
    deref, set_complete, call_FetchList, panic; simpl.

Lemma storeless_bind {A B} (m : T A) (f : A -> T B) :
  storeless m -> (forall a, storeless (f a)) -> storeless (m ≫= f).
Proof.
  intros Hm Hf s. unfold mbind, T_mbind, T_bind.
  specialize (Hm s). destruct (m s) as [[[[a|e] s1] t1] o1]; simpl in *; [|exact Hm].
  specialize (Hf a s1). destruct (f a s1) as [[[r s2] t2] o2]. simpl in *.
  destruct Hm as [Hm1 Hm2], Hf as [Hf1 Hf2]. split; [congruence|].
  rewrite forallb_app, Hm2, Hf2. reflexivity.
Qed.

Lemma storeless_ret {A} (a : A) : storeless (mret a).
Proof. intros s. split; reflexivity. Qed.

Lemma storeless_write o : storeless (write o).
Proof. intros s. split; reflexivity. Qed.

Lemma storeless_deref pr : storeless (lift (deref pr)).
Proof. intros s. unfold_T. destruct (mem s !! pr); split; reflexivity. Qed.

Lemma storeless_set_complete pr : storeless (lift (set_complete pr)).
Proof. intros s. unfold_T. destruct (mem s !! pr); split; reflexivity. Qed.

Lemma storeless_scrape scraper pr : storeless (lift (scrape scraper pr)).
Proof.
  intros s. unfold lift.
  destruct (scrape_frame scraper pr s) as (Hstore & _ & _).
  destruct (mem s !! pr) as [v|] eqn:Hv.
  - destruct (scrape_returns scraper pr s v Hv)
      as (err & s1 & extract & Hs & _ & _ & Hex & _).
    rewrite Hs in *. simpl in *. split; [exact Hstore|].
    destruct Hex as [-> | ->]; reflexivity.
  - rewrite (scrape_nil _ _ _ Hv). split; reflexivity.
Qed.

Lemma storeless_range {A} (l : list A) (body : A -> T unit) :
  (forall x, storeless (body x)) -> storeless (T_range l body).
Proof.
  intros Hb. induction l as [|x l IH]; simpl.
  - apply storeless_ret.
  - apply storeless_bind; [apply Hb|intros _; exact IH].
Qed.

Lemma storeless_test_body scraper brief pr : storeless (test_body scraper brief pr).
Proof.
  unfold test_body, test_complete.
  apply storeless_bind.
  - apply storeless_bind; [apply storeless_deref|]. intros v.
    destruct (negb (complete v)); [|apply storeless_ret].
    apply storeless_bind; [apply storeless_write|]. intros _.
    apply storeless_bind; [apply storeless_scrape|]. intros [e|].
    + apply storeless_bind; [apply storeless_deref|]. intros v'.
      apply storeless_bind; [apply storeless_write|]. intros _. apply storeless_ret.
    + apply storeless_bind; [apply storeless_set_complete|]. intros _.
      apply storeless_ret.
  - intros [|]; [|apply storeless_ret].
    apply storeless_bind; [apply storeless_deref|]. intros v.
    destruct (negb brief); apply storeless_write.
Qed.

Lemma storeless_test_scraper scraper brief : storeless (test_scraper scraper brief).
Proof.
  unfold test_scraper. apply storeless_bind.
  - intros s. unfold_T.
    destruct (FetchList scraper (world s) (mem s)) as [[r w] m]. split; reflexivity.
  - intros [prs|err].
    + apply storeless_range. intros pr. apply storeless_test_body.
    + intros s. split; reflexivity.
Qed.

Lemma storeless_main_modes flags foo : storeless (main_modes flags foo).
Proof.
  unfold main_modes. destruct (listFlag flags).
  - apply storeless_bind; [|intros _; apply storeless_ret].
    apply storeless_range. intros name. apply storeless_write.
  - destruct (negb _); [|apply storeless_ret].
    destruct (build_scrapers foo !! testScraper flags) as [scraper|];
      [|apply storeless_ret].
    apply storeless_bind; [apply storeless_test_scraper|].
    intros _. apply storeless_ret.
Qed.

(** X18: before it sets up the server, and so in its list mode and in
    its test mode, [main] never reads or writes the store and publishes
    nothing: no dedup, no stash, no publish, and the store stays as it
    was, also when the run panics. *)
Theorem main_modes_leave_store_alone (flags : Flags) (foo : list Scraper) (s : Sigma) :
  store (main_modes flags foo s).1.1.2 = store s
  /\ forallb (fun a => negb (is_store_or_hub a)) (main_modes flags foo s).1.2 = true.
Proof. apply storeless_main_modes. Qed.

Lemma T_range_write (names : list string) s :
  T_range names (fun name => write (PrintName name)) s
  = (Returned tt, s, [], PrintName <$> names).
Proof.
  set (f := fun name => write (PrintName name)).
  induction names as [|name names IH]; [reflexivity|].
  simpl. unfold mbind, T_mbind, T_bind.
  change (f name s) with (Returned tt, s, @nil Action, [PrintName name]).
  simpl. rewrite IH. reflexivity.
Qed.

(** X19: with the list flag, whatever the other flags, [main] prints the
    name of every scraper of the array, each name once, performs no
    action and returns. *)
Theorem list_mode_prints_each_name_once (flags : Flags) (foo : list Scraper) (s : Sigma) :
  listFlag flags = true ->
  exists names,
    main_modes flags foo s = (Returned Listed, s, [], PrintName <$> names)
    /\ NoDup names
    /\ (forall name, name ∈ names <-> name ∈ Name <$> foo).
Proof.
  intros Hl. exists (map_to_list (build_scrapers foo)).*1. split_and!.
  - unfold main_modes. rewrite Hl. unfold mbind, T_mbind, T_bind.
    rewrite T_range_write. simpl. rewrite app_nil_r. reflexivity.
  - apply NoDup_fst_map_to_list.
  - intros name. rewrite list_elem_of_fmap. split.
    + intros ([name' scraper] & -> & Hin). simpl.
      apply elem_of_map_to_list in Hin. rewrite build_scrapers_lookup in Hin.
      apply last_Some_elem_of, list_elem_of_filter in Hin as [Hname Hin].
      apply list_elem_of_fmap. exists scraper. auto.
    + intros Hin. apply list_elem_of_fmap in Hin as (scraper & -> & Hin).
      destruct (build_scrapers foo !! Name scraper) as [found|] eqn:Hfound.
      * exists (Name scraper, found). split; [reflexivity|].
        apply elem_of_map_to_list, Hfound.
      * exfalso. rewrite build_scrapers_lookup in Hfound.
        apply last_None in Hfound.
        assert (Hf : scraper ∈ filter (fun x => Name x = Name scraper) foo).
        { apply list_elem_of_filter. auto. }
        rewrite Hfound in Hf. inversion Hf.
Qed.

(** X20: in test mode a name that no scraper of the array goes by ends
    [main] through [log.Fatal], before anything is fetched or printed. *)
Theorem test_mode_unknown_scraper (flags : Flags) (foo : list Scraper) (s : Sigma) :
  listFlag flags = false ->
  testScraper flags <> "" ->
  Forall (fun scraper => Name scraper <> testScraper flags) foo ->
  main_modes flags foo s = (Returned (Fatal "Unknown scraper"), s, [], []).
Proof.
  intros Hl Ht Hnone. unfold main_modes. rewrite Hl.
  destruct (String.eqb_spec (testScraper flags) "") as [Heq|_]; [contradiction|].
  simpl. rewrite build_scrapers_lookup.
  replace (filter (fun scraper => Name scraper = testScraper flags) foo)
    with (@nil Scraper); [reflexivity|].
  symmetry. induction Hnone as [|scraper foo Hne Hnone IH]; [reflexivity|].
  rewrite filter_cons_False by exact Hne. exact IH.
Qed.





End MainFacts.

(** ** The additions in the small world *)

Module DemoMore.
Import Demo.

Lemma scrape_fetch_error_changes_nothing_demo :
  (scrape tesco 0%nat listed_state).1.1 = Returned (Some "404 Not Found")
  /\ mem (scrape tesco 0%nat listed_state).1.2 = mem listed_state
  /\ (scrape tesco 0%nat listed_state).2 = [CallHttpGet (Permalink (listed "http://a/1"))].
Proof.
  apply (scrape_fetch_error_changes_nothing tesco 0%nat listed_state
           (listed "http://a/1") "404 Not Found").
  - vm_compute. reflexivity.
  - left. vm_compute. reflexivity.
Defined.

Lemma scrape_closes_body_demo :
  world (scrape tesco 1%nat listed_state).1.2
  = Body_Close "<p>two</p>" (ioutil_ReadAll "<p>two</p>" web).2.
Proof.
  apply (scrape_closes_body tesco 1%nat listed_state (listed "http://a/2")
           "<p>two</p>" web).
  - vm_compute. reflexivity.
  - vm_compute. reflexivity.
Defined.

Lemma scrape_nil_error_means_extracted_demo :
  exists resp html v',
    (http_Get (Permalink (listed "http://a/2")) (world listed_state)).1 = inl resp
    /\ (ioutil_ReadAll resp
          (http_Get (Permalink (listed "http://a/2")) (world listed_state)).2).1
       = inl html
    /\ Scrape tesco (listed "http://a/2") html = (v', None)
    /\ mem (scrape tesco 1%nat listed_state).1.2 = <[1%nat := v']> (mem listed_state).
Proof.
  apply (scrape_nil_error_means_extracted tesco 1%nat listed_state
           (listed "http://a/2")).
  - vm_compute. reflexivity.
  - vm_compute. reflexivity.
Defined.

Lemma doit_accounts_for_new_items_demo :
  length (List.filter is_stash (doit tesco boot).2)
  + length (List.filter is_error_log (doit tesco boot).2)
  = length (WhichAreNew (store boot) (mem listed_state) [0; 1]%nat)
  /\ length (List.filter is_publish (doit tesco boot).2)
     = length (List.filter is_stash (doit tesco boot).2).
Proof.
  apply (doit_accounts_for_new_items tesco boot [0; 1]%nat web (mem listed_state)).
  - reflexivity.
  - vm_compute. reflexivity.
Defined.

Lemma doit_complete_listing_fetches_nothing_demo :
  (doit feed boot).1.1 = Returned tt
  /\ mem (doit feed boot).1.2 = (FetchList feed web ∅).2
  /\ world (doit feed boot).1.2 = web
  /\ forallb (fun a => negb (is_completion a)) (doit feed boot).2 = true
  /\ length (List.filter is_stash (doit feed boot).2)
     = length (WhichAreNew (store boot) (FetchList feed web ∅).2 [0; 1]%nat).
Proof.
  apply (doit_complete_listing_fetches_nothing feed boot [0; 1]%nat web
           (FetchList feed web ∅).2).
  - reflexivity.
  - vm_compute. reflexivity.
Defined.

Lemma doit_writes_only_new_releases_demo :
  mem (doit tesco seen_one).1.2 !! 0%nat = mem listed_state !! 0%nat.
Proof.
  apply (doit_writes_only_new_releases tesco seen_one [0; 1]%nat web
           (mem listed_state) 0%nat).
  - reflexivity.
  - vm_compute. intros Hin. inversion Hin as [|? ? ? Hin']. inversion Hin'.
Defined.

Lemma doit_without_stash_keeps_store_demo :
  store (doit tesco offline).1.2 = store offline.
Proof.
  apply (doit_without_stash_keeps_store tesco offline).
  vm_compute. reflexivity.
Defined.

Lemma list_mode_prints_each_name_once_demo :
  exists names,
    main_modes list_flags [tesco; down; tesco] boot
    = (Returned Listed, boot, [], PrintName <$> names)
    /\ NoDup names
    /\ (forall name, name ∈ names <-> name ∈ Name <$> [tesco; down; tesco]).
Proof.
  apply (list_mode_prints_each_name_once list_flags [tesco; down; tesco] boot).
  reflexivity.
Defined.

Lemma test_mode_unknown_scraper_demo :
  main_modes asda_flags [tesco; down] boot
  = (Returned (Fatal "Unknown scraper"), boot, [], []).
Proof.
  apply (test_mode_unknown_scraper asda_flags [tesco; down] boot).
  - reflexivity.
  - vm_compute. discriminate.
  - repeat constructor; vm_compute; discriminate.
Defined.


End DemoMore.

(** ** The steps of a cycle, from the answers of its collaborators *)

Section CycleClaims.
Context `{StoreOps}.

(** [scrape] on a live pointer, from the page fetch and the extraction. *)
Lemma scrape_fetch_page scraper pr s v :
  mem s !! pr = Some v ->
  scrape scraper pr s
  = match fetch_page (Permalink v) (world s) with
    | (inr e, w) =>
        (Returned (Some e), mkSigma (mem s) (store s) w, [CallHttpGet (Permalink v)])
    | (inl html, w) =>
        let '(v', err) := Scrape scraper v html in
        (Returned err, mkSigma (<[pr := v']> (mem s)) (store s) w,
         [CallHttpGet (Permalink v); CallScrape (Name scraper) pr])
    end.
Proof.
  intros Hv. rewrite (scrape_cases _ _ _ _ Hv). unfold fetch_page.
  destruct (http_Get (Permalink v) (world s)) as [[resp|e] w1]; [|reflexivity].
  destruct (ioutil_ReadAll resp w1) as [[html|e] w2]; reflexivity.
Qed.

(** The loop body takes the step of its press release. *)
Lemma doit_body_step scraper pr s :
  item_step scraper pr s
    (doit_body scraper pr s).1.1 (doit_body scraper pr s).1.2 (doit_body scraper pr s).2.
Proof.
  destruct (mem s !! pr) as [v|] eqn:Hv.
  2:{ rewrite (doit_body_nil _ _ _ Hv). apply step_nil, Hv. }
  destruct (complete v) eqn:Hc.
  { rewrite (doit_body_complete _ _ _ _ Hv Hc). apply (step_stash _ _ _ v Hv Hc). }
  unfold doit_body, doit_complete. unfold_steps.
  rewrite Hv. simpl. rewrite Hc. simpl. rewrite (scrape_fetch_page _ _ _ _ Hv).
  destruct (fetch_page (Permalink v) (world s)) as [[html|e] w] eqn:Hf.
  - destruct (Scrape scraper v html) as [v' [e|]] eqn:Hscr; simpl.
    + rewrite lookup_insert_eq. simpl.
      apply (step_extract_failed _ _ _ v html w v' e Hv Hc Hf Hscr).
    + rewrite lookup_insert_eq. simpl. rewrite lookup_insert_eq.
      rewrite insert_insert_eq.
      destruct (Stash w (with_complete true v') (store s)) as [ev st] eqn:Hst.
      simpl. rewrite lookup_insert_eq. simpl.
      pose proof (step_completed _ _ _ v html w v' Hv Hc Hf Hscr) as Hstep.
      rewrite Hst in Hstep. exact Hstep.
  - simpl. rewrite Hv. simpl. apply (step_fetch_failed _ _ _ v e w Hv Hc Hf).
Qed.

Lemma range_steps scraper l s :
  items_steps scraper l s (range l (doit_body scraper) s).2.
Proof.
  revert s. induction l as [|pr l IH]; intros s; [constructor|].
  pose proof (doit_body_step scraper pr s) as Hstep.
  simpl. unfold mbind, M_bind, bind.
  destruct (doit_body scraper pr s) as [[[[]|e] s1] t1]; simpl in *.
  - specialize (IH s1). destruct (range l (doit_body scraper) s1) as [[r2 s2] t2].
    simpl in *. apply (steps_next _ _ _ _ _ _ _ Hstep IH).
  - apply (steps_panic _ _ _ _ _ _ _ Hstep).
Qed.

(** The trace of [doit]: the listing, the dedup, the log line and the
    steps of the new press releases. *)
Lemma doit_steps scraper s :
  match FetchList scraper (world s) (mem s) with
  | (inr err, w, m) => (doit scraper s).2 = [CallFetchList (Name scraper)]
  | (inl prs, w, m) =>
      let new := WhichAreNew (store s) m prs in
      exists items,
        (doit scraper s).2
        = CallFetchList (Name scraper) :: CallWhichAreNew prs new
            :: Log (LogReleases (Name scraper) (length prs) (length new))
            :: items
        /\ items_steps scraper new (mkSigma m (store s) w) items
  end.
Proof.
  destruct (FetchList scraper (world s) (mem s)) as [[[prs|err] w] m] eqn:Hl.
  - rewrite (doit_listed _ _ _ _ _ Hl). simpl.
    pose proof (range_steps scraper (WhichAreNew (store s) m prs)
                  (mkSigma m (store s) w)) as Hr.
    destruct (range _ _ _) as [[r s'] items]. simpl in *.
    exists items. split; [reflexivity|exact Hr].
  - unfold doit. unfold_steps. rewrite Hl. reflexivity.
Qed.

(** C7: the trace of every cycle is the listing; then, unless the
    listing failed, the dedup of its result against the store; then, for
    each press release the dedup returned and for no other, in their
    order, its step: the fetch and the extraction when, and only when,
    the release is incomplete at its turn, and the stash followed by the
    publish only after these succeeded or were not needed.  Every publish
    comes right after the stash that returned its event, on the channel
    of the stashed release, and everything stashed or published was
    returned by the dedup. *)
Theorem cycle_steps_in_order scraper s :
  let t := (doit scraper s).2 in
  match FetchList scraper (world s) (mem s) with
  | (inr err, w, m) => t = [CallFetchList (Name scraper)]
  | (inl prs, w, m) =>
      let new := WhichAreNew (store s) m prs in
      exists items,
        t = CallFetchList (Name scraper) :: CallWhichAreNew prs new
              :: Log (LogReleases (Name scraper) (length prs) (length new))
              :: items
        /\ items_steps scraper new (mkSigma m (store s) w) items
  end
  /\ cycle_trace (Name scraper) t
  /\ (forall pre ch ev post,
        t = pre ++ CallPublish ch ev :: post ->
        exists incoming new mid pr v,
          pre = CallFetchList (Name scraper) :: CallWhichAreNew incoming new
                  :: Log (LogReleases (Name scraper) (length incoming) (length new))
                  :: mid ++ [CallStash pr v ev;
                             Log (LogStashed (Name scraper) (Permalink v))]
          /\ ch = [Source v] /\ pr ∈ new)
  /\ (forall pre pr v ev post,
        t = pre ++ CallStash pr v ev :: post ->
        exists incoming new mid,
          pre = CallFetchList (Name scraper) :: CallWhichAreNew incoming new
                  :: Log (LogReleases (Name scraper) (length incoming) (length new))
                  :: mid
          /\ pr ∈ new).
Proof.
  intros t. split; [apply doit_steps|].
  pose proof (doit_trace scraper s) as Ht. fold t in Ht.
  split; [exact Ht|]. clearbody t.
  destruct Ht as [|incoming new t Ht]; split.
  - intros pre ch ev post Heq. do 2 (destruct pre as [|? pre]; simplify_eq/=).
  - intros pre pr v ev post Heq. do 2 (destruct pre as [|? pre]; simplify_eq/=).
  - intros pre ch ev post Heq. do 3 (destruct pre as [|? pre]; simplify_eq/=).
    destruct (items_trace_publish _ _ _ Ht _ _ _ _ eq_refl)
      as (mid & pr & v & -> & -> & Hin & _).
    exists incoming, new, mid, pr, v. auto.
  - intros pre pr v ev post Heq. do 3 (destruct pre as [|? pre]; simplify_eq/=).
    exists incoming, new, pre. split; [reflexivity|].
    apply items_trace_stash in Ht. rewrite Forall_app, Forall_cons in Ht.
    tauto.
Qed.

(** C9: every press release handed to [Stash], in one cycle and over the
    whole scraper loop, has [complete] set, and every event published was
    returned by the stash of such a release.  A release that is complete
    at its turn is stashed as it is.  A release that is incomplete at its
    turn is either completed first (its page fetched, the extraction from
    that page without error) and then stashed with [complete] set, or
    skipped: after a failed fetch or a failed extraction nothing is
    stashed or published for it and the store is as it was.  A cycle is
    made of such steps, one for each new release. *)
Theorem stashed_releases_are_complete :
  (forall scraper s, Forall stashes_complete (doit scraper s).2)
  /\ (forall interval rounds s,
        Forall stashes_complete (scraper_loop interval rounds s).2)
  /\ (forall scraper s pre ch ev post,
        (doit scraper s).2 = pre ++ CallPublish ch ev :: post ->
        exists pre' pr v l,
          pre = pre' ++ [CallStash pr v ev; Log l] /\ complete v = true)
  /\ (forall scraper pr s v,
        mem s !! pr = Some v ->
        complete v = true ->
        (doit_body scraper pr s).2
        = [CallStash pr v (Stash (world s) v (store s)).1;
           Log (LogStashed (Name scraper) (Permalink v));
           CallPublish [Source v] (Stash (world s) v (store s)).1])
  /\ (forall scraper pr s v,
        mem s !! pr = Some v ->
        complete v = false ->
        (exists html w v',
            fetch_page (Permalink v) (world s) = (inl html, w)
            /\ Scrape scraper v html = (v', None)
            /\ (doit_body scraper pr s).2
               = [CallHttpGet (Permalink v); CallScrape (Name scraper) pr;
                  CallStash pr (with_complete true v')
                    (Stash w (with_complete true v') (store s)).1;
                  Log (LogStashed (Name scraper) (Permalink v'));
                  CallPublish [Source v']
                    (Stash w (with_complete true v') (store s)).1])
        \/ ((doit_body scraper pr s).1.1 = Returned tt
            /\ List.filter is_stash (doit_body scraper pr s).2 = []
            /\ List.filter is_publish (doit_body scraper pr s).2 = []
            /\ store (doit_body scraper pr s).1.2 = store s
            /\ ((exists e w, fetch_page (Permalink v) (world s) = (inr e, w))
                \/ (exists html w v' e,
                      fetch_page (Permalink v) (world s) = (inl html, w)
                      /\ Scrape scraper v html = (v', Some e)))))
  /\ (forall scraper s prs w m,
        FetchList scraper (world s) (mem s) = (inl prs, w, m) ->
        items_steps scraper (WhichAreNew (store s) m prs) (mkSigma m (store s) w)
          (drop 3 (doit scraper s).2)).
Proof.
  assert (Hd : forall scraper s, Forall stashes_complete (doit scraper s).2).
  { intros scraper s. eapply Forall_impl; [apply doit_actions|].
    intros [] Ha; simpl in *; auto. }
  split_and!.
  - exact Hd.
  - intros interval rounds s. apply scraper_loop_Forall; simpl; auto.
  - intros scraper s pre ch ev post Heq.
    pose proof (doit_trace scraper s) as Ht. rewrite Heq in Ht.
    inversion Ht as [Hnil|incoming new t Hit Hcons].
    + do 2 (destruct pre as [|? pre]; simplify_eq/=).
    + do 3 (destruct pre as [|? pre]; simplify_eq/=).
      destruct (items_trace_publish _ _ _ Hit _ _ _ _ eq_refl)
        as (mid & pr & v & -> & _ & _ & Hc).
      eexists (_ :: _ :: _ :: mid), pr, v, _. split; [reflexivity|exact Hc].
  - intros scraper pr s v Hv Hc.
    rewrite (doit_body_complete _ _ _ _ Hv Hc). reflexivity.
  - intros scraper pr s v Hv Hc.
    pose proof (doit_body_step scraper pr s) as Hstep.
    inversion Hstep as [Hnil Hr Hs Ht
                       |v0 Hv0 Hc0 Hr Hs Ht
                       |v0 e w Hv0 Hc0 Hf Hr Hs Ht
                       |v0 html w v' e Hv0 Hc0 Hf Hscr Hr Hs Ht
                       |v0 html w v' Hv0 Hc0 Hf Hscr Hr Hs Ht];
      try congruence;
      assert (v0 = v) by congruence; subst v0.
    + right. split_and!; auto. left. eauto.
    + right. split_and!; auto. right. eauto 6.
    + left. exists html, w, v'. auto.
  - intros scraper s prs w m Hl.
    pose proof (doit_steps scraper s) as Hs. rewrite Hl in Hs.
    destruct Hs as (items & -> & Hitems). exact Hitems.
Qed.

End CycleClaims.

Module DemoCycle.
Import Demo.

(** The second press release of [tesco] is incomplete when listed, its
    page can be fetched and the extraction succeeds: it is completed,
    then stashed with [complete] set. *)
Lemma stashed_releases_are_complete_demo :
  (exists html w v',
      fetch_page (Permalink (listed "http://a/2")) (world listed_state) = (inl html, w)
      /\ Scrape tesco (listed "http://a/2") html = (v', None)
      /\ (doit_body tesco 1%nat listed_state).2
         = [CallHttpGet (Permalink (listed "http://a/2")); CallScrape (Name tesco) 1%nat;
            CallStash 1%nat (with_complete true v')
              (Stash w (with_complete true v') (store listed_state)).1;
            Log (LogStashed (Name tesco) (Permalink v'));
            CallPublish [Source v']
              (Stash w (with_complete true v') (store listed_state)).1])
  \/ ((doit_body tesco 1%nat listed_state).1.1 = Returned tt
      /\ List.filter is_stash (doit_body tesco 1%nat listed_state).2 = []
      /\ List.filter is_publish (doit_body tesco 1%nat listed_state).2 = []
      /\ store (doit_body tesco 1%nat listed_state).1.2 = store listed_state
      /\ ((exists e w,
              fetch_page (Permalink (listed "http://a/2")) (world listed_state)
              = (inr e, w))
          \/ (exists html w v' e,
                fetch_page (Permalink (listed "http://a/2")) (world listed_state)
                = (inl html, w)
                /\ Scrape tesco (listed "http://a/2") html = (v', Some e)))).
Proof.
  apply (proj1 (proj2 (proj2 (proj2 (proj2 stashed_releases_are_complete))))
           tesco 1%nat listed_state (listed "http://a/2")).
  - vm_compute. reflexivity.
  - reflexivity.
Defined.

End DemoCycle.
